(** * BookRecommendation.py: a shallow embedding and its properties

    The script loads a book table with pandas, builds a TF-IDF matrix of the
    descriptions, resolves a free-text title to a [bookId] and lists the
    neighbours of that book in the cosine-similarity ranking.

    What belongs to the script is embedded as executable definitions that keep
    the script's names.  What belongs to the libraries it calls is kept
    abstract: the entries of [cosine_similarity(tfidf_matrix[i], tfidf_matrix)],
    the regular-expression engine behind [Series.str.contains], and the
    network fetch of a cover image.  Strings are byte strings; [lower] is
    [str.lower] on ASCII text, and a pattern is searched literally only when
    it and the text searched are ASCII: any other search is the
    regular-expression engine's.  What is proved of the folding of a name is
    stated for ASCII names and titles. *)

From Stdlib Require Import Ascii String QArith.
From stdpp Require Import base option list strings gmap sorting.

Local Open Scope string_scope.
Local Open Scope list_scope.
Local Open Scope nat_scope.

(** ** Python strings *)

Module Py.

Definition lower_ascii (c : ascii) : ascii :=
  let n := nat_of_ascii c in
  if Nat.leb 65 n && Nat.leb n 90 then ascii_of_nat (n + 32) else c.

(** [s.lower()], on ASCII text: the letters A to Z are folded. *)
Fixpoint lower (s : string) : string :=
  match s with
  | EmptyString => EmptyString
  | String c s' => String (lower_ascii c) (lower s')
  end.

(** [sub in s] on strings *)
Fixpoint str_in (sub s : string) : bool :=
  String.prefix sub s ||
  match s with
  | EmptyString => false
  | String _ s' => str_in sub s'
  end.

(** Every character of [s] is an ASCII character. *)
Fixpoint ascii_only (s : string) : bool :=
  match s with
  | EmptyString => true
  | String c s' => Nat.ltb (nat_of_ascii c) 128 && ascii_only s'
  end.

(** A value that may be passed as [type]: [None], a bool, an int or a str. *)
Inductive value :=
| PyNone
| PyBool (b : bool)
| PyInt (z : Z)
| PyStr (s : string).

(** [bool(v)] *)
Definition truthy (v : value) : bool :=
  match v with
  | PyNone => false
  | PyBool b => b
  | PyInt z => negb (Z.eqb z 0)
  | PyStr s => negb (String.eqb s "")
  end.

(** [v == s] for a str literal [s] *)
Definition eq_str (v : value) (s : string) : bool :=
  match v with
  | PyStr s' => String.eqb s' s
  | _ => false
  end.

Inductive exn := KeyError | IndexError | UnboundLocalError | OtherError.

Inductive result (A : Type) :=
| Return (a : A)
| Raise (e : exn).
Global Arguments Return {A} a.
Global Arguments Raise {A} e.

Global Instance result_ret : MRet result := λ A, Return.
Global Instance result_bind : MBind result := λ A B f m,
  match m with
  | Return a => f a
  | Raise e => Raise e
  end.

End Py.
Import Py.

(** ** The catalog *)

(** An index label of [data]: the bookId text, or NaN where the cell of the
    index column was empty. *)
Inductive label := NaN | Id (s : string).

Global Instance label_eq_dec : EqDecision label.
Proof. solve_decision. Defined.

Global Instance label_countable : Countable label :=
  inj_countable'
    (λ l, match l with NaN => None | Id s => Some s end)
    (λ o, match o with None => NaN | Some s => Id s end)
    (λ l, match l with NaN => eq_refl | Id _ => eq_refl end).

(** A row of [data]: the index label and the seven columns. *)
Record Book := mkBook {
  index : label;         (* the row's entry of data.index, its bookId *)
  author : string;
  title : string;
  rating : string;        (* the number, as the text it is printed with *)
  description : string;
  isbn : string;
  genres : string;
  coverImg : string
}.

(** A row as [read_csv] parses it: an empty cell is [None]. *)
Record CsvRow := mkCsvRow {
  csv_bookId : option string;
  csv_author : option string;
  csv_title : option string;
  csv_rating : option string;
  csv_description : option string;
  csv_isbn : option string;
  csv_genres : option string;
  csv_coverImg : option string
}.

(** [index_col="bookId"]: the bookId cell becomes the row's label. *)
Definition index_col (r : CsvRow) : label :=
  match csv_bookId r with
  | Some s => Id s
  | None => NaN
  end.

(** [.dropna()] on one row: the row stays when none of its columns is
    missing.  The index is not a column. *)
Definition dropna_row (r : CsvRow) : option Book :=
  a ← csv_author r;
  t ← csv_title r;
  g ← csv_rating r;
  d ← csv_description r;
  i ← csv_isbn r;
  s ← csv_genres r;
  c ← csv_coverImg r;
  Some (mkBook (index_col r) a t g d i s c).

(** [data = pd.read_csv(..., index_col="bookId", usecols=cols).dropna()] *)
Definition read_csv_dropna (rows : list CsvRow) : list Book :=
  omap dropna_row rows.

(** A cell holds a value. *)
Definition present (o : option string) : bool :=
  match o with
  | Some _ => true
  | None => false
  end.

(** The seven columns of a row are all present. *)
Definition columns_populated (r : CsvRow) : bool :=
  present (csv_author r) && present (csv_title r) && present (csv_rating r) &&
  present (csv_description r) && present (csv_isbn r) && present (csv_genres r) &&
  present (csv_coverImg r).

(** Every field the input dataset names, the identifier included. *)
Definition fully_populated (r : CsvRow) : bool :=
  match csv_bookId r with
  | Some _ => columns_populated r
  | None => false
  end.

(** What relates a row of [data] to the csv row it was read from. *)
Definition loaded_from (r : CsvRow) (b : Book) : Prop :=
  index b = index_col r ∧
  csv_author r = Some (author b) ∧ csv_title r = Some (title b) ∧
  csv_rating r = Some (rating b) ∧ csv_description r = Some (description b) ∧
  csv_isbn r = Some (isbn b) ∧ csv_genres r = Some (genres b) ∧
  csv_coverImg r = Some (coverImg b).

(** ** Console *)

(** What a call writes or shows, in order. *)
Inductive event :=
| Print (line : string)       (* print(line) *)
| Prompt (text : string)      (* the prompt of input(text) *)
| Display (url : string).     (* display(img) of the image fetched from url *)

(** The console: the lines still to be read by [input], and what was written. *)
Record world := mkWorld {
  stdin : list string;
  stdout : list event
}.

Definition print (line : string) (w : world) : world :=
  mkWorld (stdin w) (stdout w ++ [Print line]).

Definition emit (e : event) (w : world) : world :=
  mkWorld (stdin w) (stdout w ++ [e]).

(** What [correct_name] returns: nothing (the fall-through of an exact match),
    a title, or one of the markers 0 and 1. *)
Inductive corrected := CnNone | CnTitle (t : string) | CnInt (z : Z).

(** [r == z] for an int literal [z] *)
Definition cn_eq_int (r : corrected) (z : Z) : bool :=
  match r with
  | CnInt z' => Z.eqb z' z
  | _ => false
  end.

(** ** Title resolution *)

Section Resolver.

(** [re.search(pat, s, re.IGNORECASE)] for a pattern that holds a regular
    expression metacharacter, and for a pattern or a text that is not ASCII;
    [None] when the pattern does not compile. *)
Variable re_search : string → string → option bool.

Variable data : list Book.

(** The characters the regular-expression syntax gives a meaning to. *)
Definition metachars : list ascii :=
  list_ascii_of_string ".^$*+?{}[]\|()".

Fixpoint plain (pat : string) : bool :=
  match pat with
  | EmptyString => true
  | String c pat' => negb (bool_decide (c ∈ metachars)) && plain pat'
  end.

(** One element of [Series.str.contains(pat, case=False)]: an ASCII pattern
    of ordinary characters is searched literally in ASCII text, ignoring
    case; every other search is left to the regular-expression engine. *)
Definition str_contains (pat s : string) : option bool :=
  if plain pat && ascii_only pat && ascii_only s
  then Some (str_in (lower pat) (lower s))
  else re_search pat s.

(** [get_possible_books(book)] *)
Definition get_possible_books (book : string) : list string :=
  let book := lower book in
  filter (λ name, str_in book (lower name)) (title <$> data).

(** [correct_name(book_name)] *)
Definition correct_name (book_name : string) (w : world) : corrected * world :=
  if bool_decide (book_name ∉ (lower <$> (title <$> data))) then
    let possible_books := get_possible_books book_name in
    match possible_books with
    | [book] => (CnTitle book, w)
    | _ =>
      let w := print "Book not found!" w in
      match possible_books with
      | [] => (CnInt 0, w)
      | _ =>
        let w := print "Did you mean: " w in
        let w := foldl (λ w book, print book w) w possible_books in
        (CnInt 1, w)
      end
    end
  else (CnNone, w).

(** [data[mask]] for a boolean mask as long as [data] *)
Fixpoint boolean_index (rows : list Book) (mask : list bool) : list Book :=
  match rows, mask with
  | b :: rows', m :: mask' =>
    if m then b :: boolean_index rows' mask' else boolean_index rows' mask'
  | _, _ => []
  end.

(** [data[data['title'].str.contains(book_name, case=False)].index[0]];
    [None] when it raises (the pattern does not compile, or no row matches). *)
Definition first_containing (book_name : string) : option label :=
  mask ← mapM (λ b, str_contains book_name (title b)) data;
  head (index <$> boolean_index data mask).

(** The body of [name_to_bookId] once [book_name] is a non-empty string
    (lines 119-131).  [again] is the call [name_to_bookId()] of line 126: it
    runs on the console as it stands and its value is dropped. *)
Definition resolve (again : world → option label * world)
    (book_name : string) (w : world) : option label * world :=
  let book_name := lower book_name in
  let w := print book_name w in
  let '(r, w) := correct_name book_name w in
  if cn_eq_int r 0 then (None, w)
  else
    let '(r, w) := correct_name book_name w in
    let w := if cn_eq_int r 1 then (again w).2 else w in
    match first_containing book_name with
    | Some bookId => (Some bookId, w)
    | None => (None, print "Invalid input." w)
    end.

(** [name_to_bookId()] with no name given: [input("Book: ")] is repeated
    until a line is not empty, and raises EOFError, caught by the bare
    [except], when the input is exhausted.  [lines] is what is left to read
    and [out] what was written so far. *)
Fixpoint name_to_bookId_prompted (lines : list string) (out : list event)
    : option label * world :=
  match lines with
  | [] => (None, mkWorld [] (out ++ [Prompt "Book: "; Print "Invalid input."]))
  | line :: rest =>
    let out := out ++ [Prompt "Book: "] in
    if String.eqb line "" then name_to_bookId_prompted rest out
    else
      resolve (λ w, name_to_bookId_prompted rest (stdout w)) line (mkWorld rest out)
  end.

(** [name_to_bookId(book_name)] *)
Definition name_to_bookId (book_name : option string) (w : world)
    : option label * world :=
  match book_name with
  | Some (String c s) =>
    resolve (λ w, name_to_bookId_prompted (stdin w) (stdout w)) (String c s) w
  | _ => name_to_bookId_prompted (stdin w) (stdout w)
  end.

End Resolver.

(** ** Ranking by similarity *)

(** [sorted(similar_books, key=lambda x: x[1], reverse=True)]: descending in
    the score, and stable: of two entries with equal scores the one that came
    first stays first.  [insert_desc x l] puts [x], which stood before every
    entry of [l], in front of the first entry that does not beat it. *)
Fixpoint insert_desc (x : nat * Q) (l : list (nat * Q)) : list (nat * Q) :=
  match l with
  | [] => [x]
  | y :: l' => if Qle_bool y.2 x.2 then x :: l else y :: insert_desc x l'
  end.

Definition sorted_reverse (l : list (nat * Q)) : list (nat * Q) :=
  foldr insert_desc [] l.

(** [p] comes no later than [q] in a descending order of the scores. *)
Definition not_below (p q : nat * Q) : Prop := (q.2 <= p.2)%Q.

(** [list(enumerate(scores))] *)
Definition enumerate (scores : list Q) : list (nat * Q) :=
  zip (seq 0 (length scores)) scores.

(** What [books] holds when the mode was accepted: a list, or a set. *)
Inductive books :=
| BookList (l : list label)
| BookSet (s : gset label).

Section Recommender.

(** Entry [j] of [cosine_similarity(tfidf_matrix[i], tfidf_matrix)[0]], where
    [tfidf_matrix] is fitted on the given descriptions. *)
Variable cosine_similarity : list string → nat → nat → Q.

(** Whether [requests.get(url)] and [Image.open] succeed on a cover URL. *)
Variable fetch : string → bool.

Variable re_search : string → string → option bool.

Variable data : list Book.

(** [data.index.get_loc(bookId)].  With a repeated label pandas returns a
    slice or a mask, and row 0 of the scores computed from it is the row of
    the first position that carries the label. *)
Definition get_loc (bookId : option label) : result nat :=
  match bookId with
  | None => Raise KeyError
  | Some l =>
    match list_find (λ b, index b = l) data with
    | Some (i, _) => Return i
    | None => Raise KeyError
    end
  end.

(** [similarity_scores[0]] for the row at position [loc] *)
Definition similarity_scores (loc : nat) : list Q :=
  cosine_similarity (description <$> data) loc <$> seq 0 (length data).

(** The row at [loc] comes first in the ranking computed for it: no
    earlier row scores as high and no later row scores higher. *)
Definition ranked_first (loc : nat) : Prop :=
  let score := cosine_similarity (description <$> data) loc in
  (∀ j, j < loc → (score j < score loc)%Q) ∧
  (∀ j, loc < j < length data → (score j <= score loc)%Q).

(** [sorted_similar_books] *)
Definition sorted_similar_books (loc : nat) : list (nat * Q) :=
  sorted_reverse (enumerate (similarity_scores loc)).

(** [data.iloc[sorted_similar_books[i][0]].name] *)
Definition book_at_rank (sorted : list (nat * Q)) (i : nat) : result label :=
  match sorted !! i with
  | None => Raise IndexError
  | Some p =>
    match data !! p.1 with
    | None => Raise IndexError
    | Some b => Return (index b)
    end
  end.

(** [similar_summary(bookId, k)] *)
Definition similar_summary (bookId : option label) (k : nat) : result (list label) :=
  loc ← get_loc bookId;
  mapM (book_at_rank (sorted_similar_books loc)) (seq 1 k).

(** [similar_genre(bookId, k)] *)
Definition similar_genre (bookId : option label) (k : nat) : result (list label) :=
  loc ← get_loc bookId;
  mapM (book_at_rank (sorted_similar_books loc)) (seq (k + 1) k).

(** Lines 231-236 of [recommend_books]: what [books] is bound to, [None]
    when no branch binds it. *)
Definition select_books (bookId : option label) (type : value) (k : nat)
    : result (option books) :=
  if eq_str type "summary" then
    l ← similar_summary bookId k; mret (Some (BookList l))
  else if eq_str type "genres" then
    l ← similar_genre bookId k; mret (Some (BookList l))
  else if negb (truthy type) then
    s ← similar_summary bookId k;
    g ← similar_genre bookId k;
    mret (Some (BookSet (list_to_set (s ++ g))))
  else mret None.

(** The modes for which a branch of [recommend_books] binds [books]. *)
Definition accepted (type : value) : bool :=
  eq_str type "summary" || eq_str type "genres" || negb (truthy type).

(** One round of the loop of [print_book_details].  [data.loc[bookId]] is a
    row when exactly one row carries the label; with several it is a frame,
    and the fetch of its cover column fails. *)
Definition print_book (bookId : label) (w : world) : result unit * world :=
  match filter (λ b, index b = bookId) data with
  | [] => (Raise KeyError, w)
  | [b] =>
    if fetch (coverImg b) then
      let w := emit (Display (coverImg b)) w in
      let w := print ("Title: " +:+ title b) w in
      let w := print ("Author: " +:+ author b) w in
      let w := print ("Rating: " +:+ rating b) w in
      let w := print ("Genres: " +:+ genres b) w in
      (Return (), print (String "010" EmptyString) w)
    else (Raise OtherError, w)
  | _ => (Raise OtherError, w)
  end.

(** [print_book_details(bookId_list)] *)
Fixpoint print_book_details (bookId_list : list label) (w : world)
    : result unit * world :=
  match bookId_list with
  | [] => (Return (), w)
  | bookId :: rest =>
    match print_book bookId w with
    | (Return _, w) => print_book_details rest w
    | (Raise e, w) => (Raise e, w)
    end
  end.

(** The order in which the loop of [print_book_details] meets the elements
    of [books]; for a set it is one order among the possible ones. *)
Definition iterate (b : books) : list label :=
  match b with
  | BookList l => l
  | BookSet s => elements s
  end.

(** [recommend_books(book_name, type, k)] *)
Definition recommend_books (book_name : option string) (type : value) (k : nat)
    (w : world) : result unit * world :=
  let '(bookId, w) := name_to_bookId re_search data book_name w in
  match select_books bookId type k with
  | Raise e => (Raise e, w)
  | Return None => (Raise UnboundLocalError, w)
  | Return (Some books) => print_book_details (iterate books) w
  end.

End Recommender.

(** ** Concrete catalogs *)

Module Fixtures.

Definition book (id ttl descr : string) : Book :=
  mkBook (Id id) "Anon" ttl "4.0" descr "9780000000000" "['Fiction']"
         ("http://covers.example/" +:+ id).

(** Two rows with the same description, and a third that shares no word
    with them. *)
Definition twins : list Book :=
  [ book "b0" "Dragon Keep" "dragons castle siege";
    book "b1" "Dragon Keep Again" "dragons castle siege";
    book "b2" "Starfall" "starship galaxy voyage" ].

(** The cosine similarity of a catalog in which any two descriptions are
    either the same text or share no term, as [twins]: equal texts give
    equal TF-IDF rows and score 1, texts with no common term score 0. *)
Definition same_text_cosine (descriptions : list string) (i j : nat) : Q :=
  if bool_decide (descriptions !! i = descriptions !! j) then 1%Q else 0%Q.

(** A title that is contained in the title of an earlier row. *)
Definition shadowed : list Book :=
  [ book "b0" "Little Women" "four sisters";
    book "b1" "It" "a clown" ].

(** Two titles that share a word. *)
Definition series : list Book :=
  [ book "b0" "Harry Potter 1" "a boy wizard";
    book "b1" "Harry Potter 2" "a secret chamber";
    book "b2" "Emma" "a matchmaker" ].

Definition shelf : list Book :=
  [ book "b0" "Emma" "d0"; book "b1" "Persuasion" "d1";
    book "b2" "Dracula" "d2"; book "b3" "Ulysses" "d3";
    book "b4" "Walden" "d4" ].

(** Scores read from a table, row [i] column [j], standing for what the
    library computed. *)
Definition table_cosine (t : list (list Q)) (_ : list string) (i j : nat) : Q :=
  default 0%Q (row ← t !! i; row !! j).

Definition shelf_scores : list (list Q) :=
  [ [1; 1#2; 1#5; 4#5; 1#10];
    [1#2; 1; 3#10; 2#5; 0];
    [1#5; 3#10; 1; 1#10; 3#5];
    [4#5; 2#5; 1#10; 1; 1#5];
    [1#10; 0; 3#5; 1#5; 1] ]%Q.

(** No pattern with a metacharacter compiles. *)
Definition no_regex (_ _ : string) : option bool := None.

(** Every cover can be fetched. *)
Definition online (_ : string) : bool := true.

(** A csv row with every cell present but the bookId. *)
Definition anonymous_row : CsvRow :=
  mkCsvRow None (Some "Anon") (Some "Untitled") (Some "3.5") (Some "a text")
           (Some "9780000000001") (Some "[]") (Some "http://covers.example/x").

Definition full_row : CsvRow :=
  mkCsvRow (Some "b7") (Some "Anon") (Some "Titled") (Some "3.9") (Some "a text")
           (Some "9780000000002") (Some "[]") (Some "http://covers.example/b7").

Definition no_description_row : CsvRow :=
  mkCsvRow (Some "b8") (Some "Anon") (Some "Blank") (Some "3.1") None
           (Some "9780000000003") (Some "[]") (Some "http://covers.example/b8").

End Fixtures.

(** ** Vocabulary of the further properties *)

(** The console [w] once [out] was written to it. *)
Definition wrote (out : list event) (w : world) : world :=
  mkWorld (stdin w) (stdout w ++ out).

(** The console [w'] can follow [w]: what was written is still there, and
    what is left to read is the end of what was left to read. *)
Definition follows (w w' : world) : Prop :=
  stdout w `prefix_of` stdout w' ∧ stdin w' `suffix_of` stdin w.

(** What one round of the loop of [print_book_details] writes for a row. *)
Definition card (b : Book) : list event :=
  [ Display (coverImg b);
    Print ("Title: " +:+ title b);
    Print ("Author: " +:+ author b);
    Print ("Rating: " +:+ rating b);
    Print ("Genres: " +:+ genres b);
    Print (String "010" EmptyString) ].

(** What [correct_name] prints when it returns the marker 1. *)
Definition did_you_mean (possible_books : list string) : list event :=
  Print "Book not found!" :: Print "Did you mean: " :: (Print <$> possible_books).

(** The rows whose title contains the name, ignoring case, in catalog order. *)
Definition containing (data : list Book) (name : string) : list Book :=
  filter (λ b, str_in (lower name) (lower (title b))) data.

(** Every title of the catalog is ASCII text. *)
Definition ascii_titles (data : list Book) : Prop :=
  Forall (λ b, ascii_only (title b) = true) data.

(** [p] is ranked before [q]: its score is higher, or the scores are equal
    and its row comes earlier in the catalog. *)
Definition ranked_before (p q : nat * Q) : Prop :=
  (q.2 < p.2)%Q ∨ ((q.2 == p.2)%Q ∧ p.1 < q.1).

Module Samples.


(** A cover that cannot be fetched. *)
Definition offline_b3 (url : string) : bool :=
  negb (String.eqb url "http://covers.example/b3").

End Samples.

(** * Properties *)

(** ** Strings *)

Lemma lower_ascii_idemp c : lower_ascii (lower_ascii c) = lower_ascii c.
Proof. destruct c as [[] [] [] [] [] [] [] []]; reflexivity. Qed.

Lemma lower_idemp s : lower (lower s) = lower s.
Proof. induction s as [|c s IH]; simpl; [done|]. by rewrite lower_ascii_idemp, IH. Qed.

Lemma prefix_refl s : String.prefix s s = true.
Proof.
  induction s as [|c s IH]; simpl; [done|].
  by destruct (ascii_dec c c).
Qed.

Lemma str_in_refl s : str_in s s = true.
Proof. destruct s; [done|]. cbn [str_in]. by rewrite prefix_refl. Qed.

Lemma str_in_empty s : str_in "" s = true.
Proof. by destruct s. Qed.

(** ** The loader *)

Lemma dropna_row_Some r :
  columns_populated r = true →
  ∃ b, dropna_row r = Some b ∧ index b = index_col r ∧
       csv_author r = Some (author b) ∧ csv_title r = Some (title b) ∧
       csv_rating r = Some (rating b) ∧ csv_description r = Some (description b) ∧
       csv_isbn r = Some (isbn b) ∧ csv_genres r = Some (genres b) ∧
       csv_coverImg r = Some (coverImg b).
Proof.
  unfold columns_populated, dropna_row. destruct r as [i a t g d n s c]; simpl.
  destruct a, t, g, d, n, s, c; simpl; try done.
  intros _. eexists. by repeat split.
Qed.

Lemma dropna_row_None r :
  columns_populated r = false → dropna_row r = None.
Proof.
  unfold columns_populated, dropna_row. destruct r as [i a t g d n s c]; simpl.
  by destruct a, t, g, d, n, s, c.
Qed.

(** C8, as the code has it: the loader keeps, in their order, exactly the rows
    whose seven columns (author, title, rating, description, isbn, genres,
    coverImg) are all present, each with those seven values; the catalog size
    is the number of such rows.  The bookId cell is the index and is not
    looked at. *)
Theorem dropna_keeps_rows_with_all_columns (rows : list CsvRow) :
  Forall2 loaded_from (filter (λ r, columns_populated r) rows) (read_csv_dropna rows) ∧
  length (read_csv_dropna rows) = length (filter (λ r, columns_populated r) rows).
Proof.
  assert (Forall2 loaded_from (filter (λ r, columns_populated r) rows)
                  (read_csv_dropna rows)) as H.
  { induction rows as [|r rows IH]; [constructor|].
    unfold read_csv_dropna; simpl.
    destruct (columns_populated r) eqn:Hr.
    - rewrite filter_cons_True by (by rewrite Hr).
      destruct (dropna_row_Some r Hr) as (b & -> & ?). by constructor.
    - rewrite filter_cons_False by (rewrite Hr; by intros []).
      by rewrite (dropna_row_None r Hr). }
  split; [done|]. symmetry. by eapply Forall2_length.
Qed.

(** C8, as stated, fails: a row whose bookId cell is empty and whose other
    cells are present is not fully populated, yet it is loaded, under the
    label NaN. *)
Lemma dropna_keeps_row_without_bookId :
  fully_populated Fixtures.anonymous_row = false ∧
  index <$> read_csv_dropna [Fixtures.anonymous_row] = [NaN] ∧
  length (read_csv_dropna [Fixtures.anonymous_row]) = 1 ∧
  length (filter (λ r, fully_populated r) [Fixtures.anonymous_row]) = 0.
Proof. by vm_compute. Qed.

(** Ten rows of which two have no description load as eight. *)
Example dropna_ten_rows :
  length (read_csv_dropna (replicate 4 Fixtures.full_row
                           ++ [Fixtures.no_description_row]
                           ++ replicate 4 Fixtures.full_row
                           ++ [Fixtures.no_description_row])) = 8.
Proof. reflexivity. Qed.

(** ** Title resolution *)

Section ResolverFacts.

Variable re_search : string → string → option bool.
Variable data : list Book.

Lemma get_possible_books_lower q :
  get_possible_books data (lower q) = get_possible_books data q.
Proof. unfold get_possible_books. by rewrite lower_idemp. Qed.

(** A title equal to the query up to case is one of the possible books. *)
Lemma exact_match_is_possible q t :
  t ∈ title <$> data → lower t = lower q → t ∈ get_possible_books data q.
Proof.
  intros Ht Heq. unfold get_possible_books.
  apply list_elem_of_filter. split; [|done].
  rewrite <- Heq. by rewrite str_in_refl.
Qed.

Lemma no_possible_no_exact q :
  get_possible_books data q = [] → q ∉ (lower <$> (title <$> data)).
Proof.
  intros Hnone Hin. apply list_elem_of_fmap in Hin as (t & -> & Ht).
  assert (t ∈ get_possible_books data (lower t)) as Hp.
  { apply exact_match_is_possible; [done|]. by rewrite lower_idemp. }
  rewrite Hnone in Hp. by apply elem_of_nil in Hp.
Qed.

Lemma correct_name_no_possible q w :
  get_possible_books data q = [] →
  correct_name data q w = (CnInt 0, print "Book not found!" w).
Proof.
  intros Hnone. unfold correct_name.
  rewrite bool_decide_eq_true_2 by by apply no_possible_no_exact.
  by rewrite Hnone.
Qed.

Lemma resolve_no_possible again q w :
  get_possible_books data q = [] →
  (resolve re_search data again q w).1 = None.
Proof.
  intros Hnone. unfold resolve.
  rewrite correct_name_no_possible by by rewrite get_possible_books_lower.
  done.
Qed.

(** The empty query is contained in every title. *)
Lemma empty_query_possible : get_possible_books data "" = title <$> data.
Proof.
  unfold get_possible_books. simpl.
  induction (title <$> data) as [|t ts IH]; [done|].
  rewrite filter_cons_True by by rewrite str_in_empty. by rewrite IH.
Qed.

End ResolverFacts.

(** On an empty catalog every prompted name ends without an identifier. *)
Lemma prompted_empty_catalog re_search lines out :
  (name_to_bookId_prompted re_search [] lines out).1 = None.
Proof.
  revert out. induction lines as [|line rest IH]; intros out; [done|].
  simpl. destruct (String.eqb line ""); [apply IH|].
  by apply resolve_no_possible.
Qed.

(** C7: a query whose case-insensitive substring search matches no title
    (so that no title equals it either) is not found: [correct_name] returns
    the marker 0 after printing "Book not found!", and [name_to_bookId]
    returns None. *)
Theorem no_match_is_not_found re_search data (q : string) (w : world) :
  get_possible_books data q = [] →
  (lower q ∉ (lower <$> (title <$> data))) ∧
  correct_name data q w = (CnInt 0, print "Book not found!" w) ∧
  (name_to_bookId re_search data (Some q) w).1 = None.
Proof.
  intros Hnone. split.
  { apply no_possible_no_exact. by rewrite get_possible_books_lower. }
  split; [by apply correct_name_no_possible|].
  destruct q as [|c s]; simpl.
  - rewrite empty_query_possible in Hnone.
    apply fmap_nil_inv in Hnone as ->. apply prompted_empty_catalog.
  - by apply resolve_no_possible.
Qed.

Lemma no_match_is_not_found_witness :
  correct_name Fixtures.series "zzz" (mkWorld [] [])
    = (CnInt 0, mkWorld [] [Print "Book not found!"]) ∧
  (name_to_bookId Fixtures.no_regex Fixtures.series (Some "zzz") (mkWorld [] [])).1 = None.
Proof.
  exact (proj2 (no_match_is_not_found Fixtures.no_regex Fixtures.series "zzz"
                  (mkWorld [] []) eq_refl)).
Defined.

(** C3, where the code departs from it: "It" equals the title of row b1 up
    to case and of no other row, but the title of the earlier row b0 contains
    it, and [name_to_bookId] returns b0. *)
Lemma exact_title_resolves_to_earlier_row :
  index <$> (filter (λ b, lower (title b) = lower "It") Fixtures.shadowed) = [Id "b1"] ∧
  correct_name Fixtures.shadowed (lower "It") (mkWorld [] [Print "it"])
    = (CnNone, mkWorld [] [Print "it"]) ∧
  name_to_bookId Fixtures.no_regex Fixtures.shadowed (Some "It") (mkWorld [] [])
    = (Some (Id "b0"), mkWorld [] [Print "it"]).
Proof. by vm_compute. Qed.

(** C4, where the code departs from it: "harry" is contained in two titles
    and equals none; [correct_name] prints both and returns the marker 1, the
    name then read from the console resolves to b1 and is dropped, and
    [name_to_bookId] returns b0, the first row whose title contains the
    query. *)
Lemma ambiguous_query_returns_first_match :
  get_possible_books Fixtures.series "harry" = ["Harry Potter 1"; "Harry Potter 2"] ∧
  correct_name Fixtures.series "harry" (mkWorld [] [])
    = (CnInt 1, mkWorld [] [Print "Book not found!"; Print "Did you mean: ";
                            Print "Harry Potter 1"; Print "Harry Potter 2"]) ∧
  (name_to_bookId Fixtures.no_regex Fixtures.series None (mkWorld ["Harry Potter 2"] [])).1
    = Some (Id "b1") ∧
  (name_to_bookId Fixtures.no_regex Fixtures.series (Some "harry")
     (mkWorld ["Harry Potter 2"] [])).1 = Some (Id "b0").
Proof. by vm_compute. Qed.

(** ** What an ambiguous name resolves to *)

Lemma metachar_lower c :
  bool_decide (lower_ascii c ∈ metachars) = bool_decide (c ∈ metachars).
Proof. destruct c as [[] [] [] [] [] [] [] []]; reflexivity. Qed.

Lemma ascii_lower c :
  Nat.ltb (nat_of_ascii (lower_ascii c)) 128 = Nat.ltb (nat_of_ascii c) 128.
Proof. destruct c as [[] [] [] [] [] [] [] []]; reflexivity. Qed.

Lemma ascii_only_lower q : ascii_only (lower q) = ascii_only q.
Proof. induction q as [|c q IH]; simpl; [done|]. by rewrite ascii_lower, IH. Qed.

Lemma plain_lower q : plain (lower q) = plain q.
Proof. induction q as [|c q IH]; simpl; [done|]. by rewrite metachar_lower, IH. Qed.

Section AmbiguousFacts.

Variable re_search : string → string → option bool.
Variable data : list Book.

Lemma possible_books_rows q :
  get_possible_books data q
    = title <$> filter (λ b, str_in (lower q) (lower (title b))) data.
Proof.
  unfold get_possible_books. induction data as [|b rows IH]; [done|].
  rewrite fmap_cons, !filter_cons. simpl.
  destruct (str_in (lower q) (lower (title b))); simpl; by rewrite IH.
Qed.

Lemma str_contains_literal pat t :
  plain pat = true → ascii_only pat = true → ascii_only t = true →
  str_contains re_search pat t = Some (str_in (lower pat) (lower t)).
Proof. intros Hplain Hpat Ht. unfold str_contains. by rewrite Hplain, Hpat, Ht. Qed.

Lemma contains_mask pat :
  plain pat = true → ascii_only pat = true →
  Forall (λ b, ascii_only (title b) = true) data →
  mapM (λ b, str_contains re_search pat (title b)) data
    = Some ((λ b, str_in (lower pat) (lower (title b))) <$> data).
Proof.
  intros Hplain Hpat Htitles.
  induction Htitles as [|b rows Hb _ IH]; [done|]. simpl.
  rewrite str_contains_literal by done. simpl. by rewrite IH.
Qed.

Lemma boolean_index_filter (f : Book → bool) (rows : list Book) :
  boolean_index rows (f <$> rows) = filter (λ b, f b) rows.
Proof.
  induction rows as [|b rows IH]; [done|].
  rewrite fmap_cons, filter_cons. cbn [boolean_index].
  destruct (f b); simpl; by rewrite IH.
Qed.

Lemma first_containing_plain pat :
  plain pat = true → ascii_only pat = true →
  Forall (λ b, ascii_only (title b) = true) data →
  first_containing re_search data pat
    = head (index <$> filter (λ b, str_in (lower pat) (lower (title b))) data).
Proof.
  intros Hplain Hpat Htitles. unfold first_containing.
  rewrite contains_mask by done.
  cbn [mbind option_bind]. by rewrite boolean_index_filter.
Qed.

(** The part of C4 that holds: the marker 1, after all the matched titles
    were printed. *)
Lemma correct_name_ambiguous q w t1 t2 ts :
  q ∉ (lower <$> (title <$> data)) →
  get_possible_books data q = t1 :: t2 :: ts →
  correct_name data q w
    = (CnInt 1, foldl (λ w book, print book w)
                      (print "Did you mean: " (print "Book not found!" w))
                      (t1 :: t2 :: ts)).
Proof.
  intros Hnot Hposs. unfold correct_name.
  rewrite bool_decide_eq_true_2 by done. by rewrite Hposs.
Qed.

(** The part that does not: whatever is then typed at the prompt, the
    query itself is looked up, and the first row whose title contains it is
    returned (shown here for ASCII names and titles). *)
Lemma ambiguous_query_is_resolved_anyway q w t1 t2 ts :
  q ≠ "" →
  plain q = true → ascii_only q = true →
  Forall (λ b, ascii_only (title b) = true) data →
  lower q ∉ (lower <$> (title <$> data)) →
  get_possible_books data q = t1 :: t2 :: ts →
  ∃ b, head (filter (λ b, str_in (lower q) (lower (title b))) data) = Some b ∧
       title b = t1 ∧
       (name_to_bookId re_search data (Some q) w).1 = Some (index b).
Proof.
  intros Hq Hplain Hascii Htitles Hnot Hposs.
  pose proof Hposs as Hrows. rewrite possible_books_rows in Hrows.
  destruct (filter (λ b, str_in (lower q) (lower (title b))) data)
    as [|b rows] eqn:Hfilter; [done|].
  injection Hrows as Ht _. exists b. split; [done|]. split; [done|].
  rewrite <- get_possible_books_lower in Hposs.
  assert (first_containing re_search data (lower q) = Some (index b)) as Hfirst.
  { rewrite first_containing_plain;
      [|by rewrite plain_lower|by rewrite ascii_only_lower|done].
    by rewrite lower_idemp, Hfilter. }
  destruct q as [|c s]; [done|].
  unfold name_to_bookId, resolve. cbv zeta.
  rewrite !(correct_name_ambiguous _ _ t1 t2 ts) by done.
  cbn [cn_eq_int Z.eqb]. by rewrite Hfirst.
Qed.

End AmbiguousFacts.

(** ** The sort *)

Lemma not_below_trans : Transitive not_below.
Proof. intros p q r Hpq Hqr. unfold not_below in *. by eapply Qle_trans. Qed.

Lemma insert_desc_perm x l : insert_desc x l ≡ₚ x :: l.
Proof.
  induction l as [|y l IH]; simpl; [done|].
  destruct (Qle_bool y.2 x.2); [done|].
  rewrite IH. apply Permutation_swap.
Qed.

Lemma sorted_reverse_perm l : sorted_reverse l ≡ₚ l.
Proof.
  induction l as [|x l IH]; simpl; [done|].
  by rewrite insert_desc_perm, IH.
Qed.

Lemma insert_desc_hd x y l :
  not_below y x → HdRel not_below y l → HdRel not_below y (insert_desc x l).
Proof.
  intros Hyx Hl. destruct l as [|z l]; simpl; [by constructor|].
  destruct (Qle_bool z.2 x.2); constructor; [done|].
  by inversion Hl.
Qed.

Lemma insert_desc_sorted x l :
  Sorted not_below l → Sorted not_below (insert_desc x l).
Proof.
  induction 1 as [|y l Hl IH Hhd]; simpl; [by repeat constructor|].
  destruct (Qle_bool y.2 x.2) eqn:Hle.
  - apply Qle_bool_iff in Hle. by repeat constructor.
  - constructor; [done|]. apply insert_desc_hd; [|done].
    unfold not_below. apply Qlt_le_weak, Qnot_le_lt.
    intros Hyx. apply Qle_bool_iff in Hyx. congruence.
Qed.

Lemma sorted_reverse_sorted l : StronglySorted not_below (sorted_reverse l).
Proof.
  apply Sorted_StronglySorted; [apply not_below_trans|].
  induction l as [|x l IH]; simpl; [constructor|].
  by apply insert_desc_sorted.
Qed.

(** Stability at the top: an entry that beats every entry before it and is
    not beaten by any entry after it comes out first. *)
Lemma sorted_reverse_head l1 x l2 :
  Forall (λ y, (y.2 < x.2)%Q) l1 →
  Forall (λ y, (y.2 <= x.2)%Q) l2 →
  head (sorted_reverse (l1 ++ x :: l2)) = Some x.
Proof.
  intros H1 H2. induction H1 as [|a l1 Ha _ IH]; simpl.
  - destruct (sorted_reverse l2) as [|y l] eqn:Hs; simpl; [done|].
    assert (y ∈ l2) as Hy.
    { rewrite <- (sorted_reverse_perm l2), Hs. by left. }
    rewrite Forall_forall in H2. apply H2, Qle_bool_iff in Hy. by rewrite Hy.
  - destruct (sorted_reverse (l1 ++ x :: l2)) as [|y l]; simplify_eq/=.
    destruct (Qle_bool x.2 a.2) eqn:Hle; [|done].
    apply Qle_bool_iff in Hle. by apply Qlt_not_le in Ha.
Qed.

(** ** Loops over ranks *)

Lemma mapM_result_app {A B} (f : A → result B) l1 l2 :
  mapM f (l1 ++ l2) = x ← mapM f l1; y ← mapM f l2; mret (x ++ y).
Proof.
  induction l1 as [|a l1 IH]; simpl.
  - by destruct (mapM f l2).
  - destruct (f a); simpl; [|done]. rewrite IH.
    destruct (mapM f l1); simpl; [|done]. by destruct (mapM f l2).
Qed.

(** ** The ranking of a row *)

Section RankingFacts.

Variable cosine_similarity : list string → nat → nat → Q.
Variable data : list Book.

Local Abbreviation score loc := (cosine_similarity (description <$> data) loc).
Local Abbreviation sorted loc := (sorted_similar_books cosine_similarity data loc).
Local Abbreviation scored loc := ((λ j, (j, score loc j)) <$> seq 0 (length data)).

Lemma enumerate_fmap_seq (f : nat → Q) n :
  enumerate (f <$> seq 0 n) = (λ j, (j, f j)) <$> seq 0 n.
Proof.
  unfold enumerate. rewrite length_fmap, length_seq.
  generalize 0. induction n as [|n IH]; intros a; simpl; [done|].
  by rewrite IH.
Qed.

Lemma enumerate_scores loc :
  enumerate (similarity_scores cosine_similarity data loc) = scored loc.
Proof. apply enumerate_fmap_seq. Qed.

Lemma sorted_perm loc : sorted loc ≡ₚ scored loc.
Proof.
  unfold sorted_similar_books. by rewrite sorted_reverse_perm, enumerate_scores.
Qed.

Lemma sorted_length loc : length (sorted loc) = length data.
Proof. by rewrite sorted_perm, length_fmap, length_seq. Qed.

Lemma sorted_rows loc p : p ∈ sorted loc → p.1 < length data.
Proof.
  rewrite sorted_perm. intros (j & -> & Hj)%list_elem_of_fmap.
  apply elem_of_seq in Hj. simpl. lia.
Qed.

Lemma sorted_rows_NoDup loc : NoDup (sorted loc).*1.
Proof.
  rewrite sorted_perm, <- list_fmap_compose.
  rewrite (list_fmap_ext _ id (seq 0 (length data))) by done.
  rewrite list_fmap_id. apply NoDup_seq.
Qed.

Lemma sorted_head loc :
  loc < length data → ranked_first cosine_similarity data loc →
  head (sorted loc) = Some (loc, score loc loc).
Proof.
  intros Hloc [Hbefore Hafter]. unfold sorted_similar_books.
  rewrite enumerate_scores.
  replace (length data) with (loc + S (length data - S loc)) by lia.
  rewrite seq_app, fmap_app. simpl.
  apply sorted_reverse_head; apply Forall_fmap, Forall_forall;
    intros j Hj%elem_of_seq; simpl; [apply Hbefore|apply Hafter]; lia.
Qed.

(** *** Positions of labels *)

Lemma get_loc_elem_of (bookId : label) :
  bookId ∈ index <$> data →
  ∃ loc, get_loc data (Some bookId) = Return loc ∧
         (index <$> data) !! loc = Some bookId.
Proof.
  intros (b & -> & Hb)%list_elem_of_fmap. unfold get_loc.
  destruct (list_find (λ b', index b' = index b) data) as [[i b']|] eqn:Hfind.
  - apply list_find_Some in Hfind as (Hi & Heq & _).
    exists i. split; [done|]. by rewrite list_lookup_fmap, Hi, <- Heq.
  - apply list_find_None in Hfind. rewrite Forall_forall in Hfind.
    by destruct (Hfind b Hb).
Qed.

(** *** The loop *)

Lemma book_at_rank_ge l i :
  length l ≤ i → book_at_rank data l i = Raise IndexError.
Proof. intros Hi. unfold book_at_rank. by rewrite lookup_ge_None_2. Qed.

Lemma book_at_rank_lt l i :
  (∀ p, p ∈ l → p.1 < length data) → i < length l →
  ∃ p id, l !! i = Some p ∧ (index <$> data) !! p.1 = Some id ∧
          book_at_rank data l i = Return id.
Proof.
  intros Hrows Hi. apply lookup_lt_is_Some_2 in Hi as [p Hp].
  assert (p.1 < length data) as [b Hb]%lookup_lt_is_Some_2.
  { eapply Hrows, list_elem_of_lookup_2, Hp. }
  exists p, (index b). unfold book_at_rank.
  by rewrite Hp, Hb, list_lookup_fmap, Hb.
Qed.

(** The loop over ranks [a .. a+m-1] of a list that has them all returns
    the labels of the rows at those ranks. *)
Lemma ranks_in_range l m a :
  (∀ p, p ∈ l → p.1 < length data) → a + m ≤ length l →
  ∃ ids, mapM (book_at_rank data l) (seq a m) = Return ids ∧
         length ids = m ∧
         Forall2 (λ p id, (index <$> data) !! p.1 = Some id)
                 (take m (drop a l)) ids.
Proof.
  intros Hrows. revert a. induction m as [|m IH]; intros a Ha; simpl.
  - exists []. by rewrite take_0.
  - destruct (book_at_rank_lt l a Hrows) as (p & id & Hp & Hid & ->); [lia|].
    destruct (IH (S a)) as (ids & -> & Hlen & Hall); [lia|].
    exists (id :: ids). simpl. split; [done|]. split; [by rewrite Hlen|].
    rewrite (drop_S _ _ _ Hp). simpl. by constructor.
Qed.

(** The loop raises as soon as one of its ranks is missing. *)
Lemma ranks_out_of_range l m a :
  (∀ p, p ∈ l → p.1 < length data) → 0 < m → length l < a + m →
  mapM (book_at_rank data l) (seq a m) = Raise IndexError.
Proof.
  intros Hrows. revert a. induction m as [|m IH]; intros a Hm Ha; [lia|].
  simpl. destruct (decide (a < length l)) as [Hlt|Hge].
  - destruct (book_at_rank_lt l a Hrows Hlt) as (p & id & _ & _ & ->). simpl.
    by rewrite IH by lia.
  - by rewrite book_at_rank_ge by lia.
Qed.

End RankingFacts.

(** ** Recommendations *)

Section RecommenderFacts.

Variable cosine_similarity : list string → nat → nat → Q.
Variable data : list Book.

Local Abbreviation sorted loc := (sorted_similar_books cosine_similarity data loc).
Local Abbreviation summary := (similar_summary cosine_similarity data).
Local Abbreviation genre := (similar_genre cosine_similarity data).

(** Both functions run the same loop over one ranking; they differ in the
    ranks they visit. *)
Lemma ranks_of_known_book (bookId : label) a m :
  bookId ∈ index <$> data → a + m ≤ length data →
  ∃ loc ids,
    get_loc data (Some bookId) = Return loc ∧
    (index <$> data) !! loc = Some bookId ∧
    mapM (book_at_rank data (sorted loc)) (seq a m) = Return ids ∧
    length ids = m ∧
    Forall2 (λ p id, (index <$> data) !! p.1 = Some id)
            (take m (drop a (sorted loc))) ids.
Proof.
  intros (loc & Hloc & Hat)%get_loc_elem_of Hlen.
  destruct (ranks_in_range data (sorted loc) m a) as (ids & ? & ? & ?).
  { apply sorted_rows. }
  { by rewrite sorted_length. }
  by exists loc, ids.
Qed.

Lemma summary_of_known_book (bookId : label) k :
  bookId ∈ index <$> data → k + 1 ≤ length data →
  ∃ loc ids,
    get_loc data (Some bookId) = Return loc ∧
    (index <$> data) !! loc = Some bookId ∧
    summary (Some bookId) k = Return ids ∧ length ids = k ∧
    Forall2 (λ p id, (index <$> data) !! p.1 = Some id)
            (take k (drop 1 (sorted loc))) ids.
Proof.
  intros Hin Hlen.
  destruct (ranks_of_known_book bookId 1 k Hin) as (loc & ids & Hloc & ? & Hids & ? & ?);
    [lia|].
  exists loc, ids. unfold similar_summary. rewrite Hloc. simpl. by rewrite Hids.
Qed.

Lemma genre_of_known_book (bookId : label) k :
  bookId ∈ index <$> data → 2 * k + 1 ≤ length data →
  ∃ loc ids,
    get_loc data (Some bookId) = Return loc ∧
    (index <$> data) !! loc = Some bookId ∧
    genre (Some bookId) k = Return ids ∧ length ids = k ∧
    Forall2 (λ p id, (index <$> data) !! p.1 = Some id)
            (take k (drop (k + 1) (sorted loc))) ids.
Proof.
  intros Hin Hlen.
  destruct (ranks_of_known_book bookId (k + 1) k Hin)
    as (loc & ids & Hloc & ? & Hids & ? & ?); [lia|].
  exists loc, ids. unfold similar_genre. rewrite Hloc. simpl. by rewrite Hids.
Qed.

(** A row other than the first of the ranking does not carry the label of
    the first when labels are unique. *)
Lemma later_ranks_differ loc s (bookId : label) k ids :
  NoDup (index <$> data) →
  (index <$> data) !! loc = Some bookId →
  head (sorted loc) = Some (loc, s) →
  Forall2 (λ p id, (index <$> data) !! p.1 = Some id)
          (take k (drop 1 (sorted loc))) ids →
  bookId ∉ ids.
Proof.
  intros Huniq Hloc Hhead Hall Hin.
  pose proof (sorted_rows_NoDup cosine_similarity data loc) as Hnd.
  destruct (sorted loc) as [|p rest]; simplify_eq/=.
  rewrite drop_0 in Hall. apply NoDup_cons in Hnd as [Hfresh _].
  apply list_elem_of_lookup in Hin as [i Hi].
  destruct (Forall2_lookup_r _ _ _ _ _ Hall Hi) as (p & Hp & Hrow).
  assert (p.1 = loc) as Heq by by eapply NoDup_lookup.
  apply Hfresh. rewrite <- Heq. apply list_elem_of_fmap. exists p. split; [done|].
  apply list_elem_of_lookup_2 in Hp. by eapply subseteq_take.
Qed.

End RecommenderFacts.

(** X21: for a bookId of the catalog and a catalog of at
    least k+1 rows, [similar_summary] returns exactly k labels, those of the
    rows at ranks 1 to k (the 2nd to the (k+1)th) of the list of all rows
    sorted by descending similarity to the row of bookId.  The label bookId is
    not among them when the labels are unique and the row of bookId is ranked
    first, that is, no earlier row scores as high and no later row scores
    higher. *)
Theorem similar_summary_ranks cosine_similarity data (bookId : label) (k : nat) :
  bookId ∈ index <$> data → k + 1 ≤ length data →
  ∃ loc ids,
    get_loc data (Some bookId) = Return loc ∧
    sorted_similar_books cosine_similarity data loc
      ≡ₚ (λ j, (j, cosine_similarity (description <$> data) loc j)) <$> seq 0 (length data) ∧
    StronglySorted not_below (sorted_similar_books cosine_similarity data loc) ∧
    similar_summary cosine_similarity data (Some bookId) k = Return ids ∧
    length ids = k ∧
    Forall2 (λ p id, (index <$> data) !! p.1 = Some id)
            (take k (drop 1 (sorted_similar_books cosine_similarity data loc))) ids ∧
    (NoDup (index <$> data) → ranked_first cosine_similarity data loc → bookId ∉ ids).
Proof.
  intros Hin Hlen.
  destruct (summary_of_known_book cosine_similarity data bookId k Hin Hlen)
    as (loc & ids & Hloc & Hat & Hids & Hk & Hall).
  exists loc, ids. split; [done|]. split; [apply sorted_perm|].
  split; [apply sorted_reverse_sorted|]. do 3 (split; [done|]).
  intros Huniq Hfirst. eapply later_ranks_differ; [done..| |done].
  apply sorted_head; [|done].
  apply lookup_lt_Some in Hat. by rewrite length_fmap in Hat.
Qed.

Lemma similar_summary_ranks_witness :
  ∃ ids,
    similar_summary (Fixtures.table_cosine Fixtures.shelf_scores) Fixtures.shelf
                    (Some (Id "b0")) 2 = Return ids ∧
    length ids = 2 ∧ Id "b0" ∉ ids.
Proof.
  destruct (similar_summary_ranks (Fixtures.table_cosine Fixtures.shelf_scores)
              Fixtures.shelf (Id "b0") 2)
    as (loc & ids & Hloc & _ & _ & Hids & Hlen & _ & Hnot).
  - apply list_elem_of_here.
  - simpl. lia.
  - exists ids. split; [exact Hids|]. split; [exact Hlen|].
    injection Hloc as <-. apply Hnot.
    + apply (bool_decide_unpack _). vm_compute. reflexivity.
    + split; intros j Hj; [lia|].
      destruct j as [|[|[|[|[|j]]]]]; simpl in Hj; try lia; vm_compute; discriminate.
Defined.

(** C1, where the code departs from it: rows b0 and b1 carry the same
    description, so b0 scores as high as b1 in the ranking of b1 and, coming
    earlier, is ranked first; the loop starts at rank 1 to skip the query
    book, but the row at rank 1 is b1 itself, and [similar_summary] returns
    it. *)
Lemma similar_summary_returns_query_on_tie :
  Id "b1" ∈ index <$> Fixtures.twins ∧
  1 + 1 ≤ length Fixtures.twins ∧
  NoDup (index <$> Fixtures.twins) ∧
  (sorted_similar_books Fixtures.same_text_cosine Fixtures.twins 1).*1 = [0; 1; 2] ∧
  similar_summary Fixtures.same_text_cosine Fixtures.twins (Some (Id "b1")) 1
    = Return [Id "b1"].
Proof.
  split; [by apply (bool_decide_unpack _)|]. split; [simpl; lia|].
  split; [by apply (bool_decide_unpack _)|]. by vm_compute.
Qed.

(** ** What the functions read of the catalog *)

Lemma get_loc_spec data (l : label) :
  match get_loc data (Some l) with
  | Return i =>
    (index <$> data) !! i = Some l ∧
    ∀ j, j < i → (index <$> data) !! j ≠ Some l
  | Raise e => e = KeyError ∧ l ∉ index <$> data
  end.
Proof.
  unfold get_loc.
  destruct (list_find (λ b, index b = l) data) as [[i b]|] eqn:Hfind.
  - apply list_find_Some in Hfind as (Hi & Heq & Hfirst). split.
    + by rewrite list_lookup_fmap, Hi, <- Heq.
    + intros j Hj. rewrite list_lookup_fmap.
      destruct (data !! j) as [b'|] eqn:Hb'; [|done].
      intros [= Hl]. by eapply Hfirst.
  - split; [done|]. apply list_find_None in Hfind. rewrite Forall_forall in Hfind.
    intros (b & -> & Hb)%list_elem_of_fmap. by eapply Hfind.
Qed.

Lemma get_loc_index data data' key :
  index <$> data' = index <$> data → get_loc data' key = get_loc data key.
Proof.
  intros Heq. destruct key as [l|]; [|done].
  pose proof (get_loc_spec data l) as H. pose proof (get_loc_spec data' l) as H'.
  rewrite Heq in H'.
  destruct (get_loc data (Some l)) as [i|e], (get_loc data' (Some l)) as [i'|e'].
  - destruct H as [Hi Hmin], H' as [Hi' Hmin']. f_equal.
    destruct (Nat.lt_trichotomy i i') as [Hlt|[->|Hlt]]; [|done|].
    + by destruct (Hmin' i Hlt).
    + by destruct (Hmin i' Hlt).
  - destruct H as [Hi _], H' as [_ Hnot]. destruct Hnot.
    by eapply list_elem_of_lookup_2.
  - destruct H' as [Hi _], H as [_ Hnot]. destruct Hnot.
    by eapply list_elem_of_lookup_2.
  - destruct H as [-> _], H' as [-> _]. done.
Qed.

Lemma book_at_rank_index data data' l i :
  index <$> data' = index <$> data →
  book_at_rank data' l i = book_at_rank data l i.
Proof.
  intros Heq. unfold book_at_rank. destruct (l !! i) as [p|]; [|done].
  assert (index <$> data' !! p.1 = index <$> data !! p.1) as H.
  { by rewrite <- !list_lookup_fmap, Heq. }
  destruct (data' !! p.1), (data !! p.1); simpl in *; congruence.
Qed.

Lemma sorted_similar_books_descriptions cosine_similarity data data' loc :
  length data' = length data →
  description <$> data' = description <$> data →
  sorted_similar_books cosine_similarity data' loc
    = sorted_similar_books cosine_similarity data loc.
Proof.
  intros Hlen Hdesc. unfold sorted_similar_books, similarity_scores.
  by rewrite Hlen, Hdesc.
Qed.

Lemma mapM_result_ext {A B} (f g : A → result B) l :
  (∀ x, f x = g x) → mapM f l = mapM g l.
Proof. intros Hfg. induction l as [|x l IH]; simpl; [done|]. by rewrite Hfg, IH. Qed.

(** The genre mode reads the labels and the descriptions, nothing else. *)
Lemma similar_genre_reads cosine_similarity data data' key k :
  index <$> data' = index <$> data →
  description <$> data' = description <$> data →
  similar_genre cosine_similarity data' key k
    = similar_genre cosine_similarity data key k.
Proof.
  intros Hidx Hdesc. unfold similar_genre.
  rewrite (get_loc_index data data') by done.
  destruct (get_loc data key) as [loc|]; simpl; [|done].
  rewrite (sorted_similar_books_descriptions _ data data'); [|by rewrite <- (length_fmap index), Hidx, length_fmap|done].
  apply mapM_result_ext. intros i. by apply book_at_rank_index.
Qed.

(** C2: for a bookId of the catalog and a catalog of at least 2k+1 rows,
    [similar_genre] walks the ranking that [similar_summary] walks, the one
    computed from the descriptions, and returns its next slice: the labels of
    the rows at ranks k+1 to 2k (the (k+2)th to the (2k+1)th).  So
    [similar_summary(bookId, 2k)] is [similar_summary(bookId, k)] followed by
    [similar_genre(bookId, k)], and the result is the same on any catalog
    with the same labels and descriptions, whatever its genres. *)
Theorem similar_genre_next_slice cosine_similarity data (bookId : label) (k : nat) :
  bookId ∈ index <$> data → 2 * k + 1 ≤ length data →
  ∃ loc s g,
    get_loc data (Some bookId) = Return loc ∧
    similar_summary cosine_similarity data (Some bookId) k = Return s ∧
    similar_genre cosine_similarity data (Some bookId) k = Return g ∧
    length g = k ∧
    Forall2 (λ p id, (index <$> data) !! p.1 = Some id)
            (take k (drop (k + 1) (sorted_similar_books cosine_similarity data loc))) g ∧
    similar_summary cosine_similarity data (Some bookId) (2 * k) = Return (s ++ g) ∧
    ∀ data', index <$> data' = index <$> data →
             description <$> data' = description <$> data →
             similar_genre cosine_similarity data' (Some bookId) k = Return g.
Proof.
  intros Hin Hlen.
  destruct (summary_of_known_book cosine_similarity data bookId k Hin)
    as (loc & s & Hloc & _ & Hs & _ & _); [lia|].
  destruct (genre_of_known_book cosine_similarity data bookId k Hin Hlen)
    as (loc' & g & Hloc' & _ & Hg & Hk & Hall).
  assert (loc' = loc) as -> by congruence.
  exists loc, s, g. do 5 (split; [done|]). split.
  - revert Hs Hg. unfold similar_summary, similar_genre. rewrite Hloc. simpl.
    replace (k + (k + 0)) with (k + k) by lia.
    rewrite seq_app, mapM_result_app. replace (1 + k) with (k + 1) by lia.
    by intros -> ->.
  - intros data' Hidx Hdesc. by rewrite (similar_genre_reads _ data data').
Qed.

Lemma similar_genre_next_slice_witness :
  similar_summary (Fixtures.table_cosine Fixtures.shelf_scores) Fixtures.shelf
                  (Some (Id "b0")) 2 = Return [Id "b3"; Id "b1"] ∧
  similar_genre (Fixtures.table_cosine Fixtures.shelf_scores) Fixtures.shelf
                (Some (Id "b0")) 2 = Return [Id "b2"; Id "b4"] ∧
  similar_summary (Fixtures.table_cosine Fixtures.shelf_scores) Fixtures.shelf
                  (Some (Id "b0")) 4 = Return [Id "b3"; Id "b1"; Id "b2"; Id "b4"].
Proof.
  destruct (similar_genre_next_slice (Fixtures.table_cosine Fixtures.shelf_scores)
              Fixtures.shelf (Id "b0") 2)
    as (loc & s & g & _ & Hs & Hg & _ & _ & Hboth & _).
  - apply list_elem_of_here.
  - simpl. lia.
  - assert (s = [Id "b3"; Id "b1"]) as Es.
    { vm_compute in Hs. by injection Hs. }
    assert (g = [Id "b2"; Id "b4"]) as Eg.
    { vm_compute in Hg. by injection Hg. }
    rewrite Es, Eg in *. by repeat split.
Defined.

(** C10: for a bookId of the catalog, [similar_summary] raises IndexError when
    the catalog has fewer than k+1 rows and [similar_genre] raises IndexError
    when it has fewer than 2k+1 rows; neither returns a shorter list. *)
Theorem ranks_beyond_catalog_raise cosine_similarity data (bookId : label) (k : nat) :
  bookId ∈ index <$> data →
  (length data < k + 1 →
   similar_summary cosine_similarity data (Some bookId) k = Raise IndexError) ∧
  (length data < 2 * k + 1 →
   similar_genre cosine_similarity data (Some bookId) k = Raise IndexError).
Proof.
  intros Hin.
  destruct (get_loc_elem_of data bookId Hin) as (loc & Hloc & Hat).
  apply lookup_lt_Some in Hat. rewrite length_fmap in Hat.
  unfold similar_summary, similar_genre. rewrite Hloc. simpl.
  split; intros Hlen; apply ranks_out_of_range;
    try apply sorted_rows; rewrite ?sorted_length; lia.
Qed.

Lemma ranks_beyond_catalog_raise_witness :
  similar_summary (Fixtures.table_cosine Fixtures.shelf_scores) Fixtures.shelf
                  (Some (Id "b0")) 5 = Raise IndexError ∧
  similar_genre (Fixtures.table_cosine Fixtures.shelf_scores) Fixtures.shelf
                (Some (Id "b0")) 3 = Raise IndexError.
Proof.
  split.
  - apply (ranks_beyond_catalog_raise (Fixtures.table_cosine Fixtures.shelf_scores)
             Fixtures.shelf (Id "b0") 5); [apply list_elem_of_here|simpl; lia].
  - apply (ranks_beyond_catalog_raise (Fixtures.table_cosine Fixtures.shelf_scores)
             Fixtures.shelf (Id "b0") 3); [apply list_elem_of_here|simpl; lia].
Defined.

(** ** Modes *)

Lemma falsy_is_no_mode_name type s :
  truthy type = false → s ≠ "" → eq_str type s = false.
Proof.
  destruct type as [| | |s']; simpl; try done.
  intros Hs' Hs. apply negb_false_iff, String.eqb_eq in Hs' as ->.
  by apply String.eqb_neq.
Qed.

Lemma size_list_to_set_le (l : list label) : size (list_to_set (C:=gset label) l) ≤ length l.
Proof.
  unfold size, set_size. simpl. apply submseteq_length, NoDup_submseteq.
  - apply NoDup_elements.
  - intros x. by rewrite elem_of_elements, elem_of_list_to_set.
Qed.

(** C5: with the mode unset (any falsy [type]), a bookId of the catalog and a
    catalog of at least 2k+1 rows, [books] is the set union of what
    [similar_summary] and [similar_genre] return: it holds no label twice, has
    at most 2k elements, and is the same set in whatever order the two
    results are listed. *)
Theorem combined_mode_is_set_union cosine_similarity data (bookId : label)
    (type : value) (k : nat) :
  truthy type = false →
  bookId ∈ index <$> data → 2 * k + 1 ≤ length data →
  ∃ s g (both : gset label),
    similar_summary cosine_similarity data (Some bookId) k = Return s ∧
    similar_genre cosine_similarity data (Some bookId) k = Return g ∧
    select_books cosine_similarity data (Some bookId) type k
      = Return (Some (BookSet both)) ∧
    both = list_to_set s ∪ list_to_set g ∧
    NoDup (iterate (BookSet both)) ∧
    size both ≤ 2 * k ∧
    ∀ l, l ≡ₚ s ++ g → list_to_set l = both.
Proof.
  intros Hfalsy Hin Hlen.
  destruct (summary_of_known_book cosine_similarity data bookId k Hin)
    as (_ & s & _ & _ & Hs & Hks & _); [lia|].
  destruct (genre_of_known_book cosine_similarity data bookId k Hin Hlen)
    as (_ & g & _ & _ & Hg & Hkg & _).
  exists s, g, (list_to_set (s ++ g)). do 2 (split; [done|]). split.
  { unfold select_books. rewrite !falsy_is_no_mode_name by done.
    by rewrite Hfalsy, Hs, Hg. }
  split; [apply list_to_set_app_L|]. split; [simpl; apply NoDup_elements|]. split.
  - etrans; [apply size_list_to_set_le|]. rewrite length_app. lia.
  - by intros l ->.
Qed.

Lemma combined_mode_is_set_union_witness :
  ∃ both : gset label,
    select_books (Fixtures.table_cosine Fixtures.shelf_scores) Fixtures.shelf
                 (Some (Id "b0")) PyNone 2 = Return (Some (BookSet both)) ∧
    both = {[ Id "b3"; Id "b1"; Id "b2"; Id "b4" ]} ∧
    size both ≤ 4.
Proof.
  destruct (combined_mode_is_set_union (Fixtures.table_cosine Fixtures.shelf_scores)
              Fixtures.shelf (Id "b0") PyNone 2)
    as (s & g & both & Hs & Hg & Hsel & Hboth & _ & Hsize & _).
  - reflexivity.
  - apply list_elem_of_here.
  - simpl. lia.
  - exists both. split; [exact Hsel|]. split; [|exact Hsize].
    assert (s = [Id "b3"; Id "b1"]) as Es.
    { vm_compute in Hs. by injection Hs. }
    assert (g = [Id "b2"; Id "b4"]) as Eg.
    { vm_compute in Hg. by injection Hg. }
    rewrite Hboth, Es, Eg. simpl. set_solver.
Defined.

Section ModeFacts.

Variable cosine_similarity : list string → nat → nat → Q.
Variable fetch : string → bool.
Variable re_search : string → string → option bool.
Variable data : list Book.

Lemma select_books_unbound bookId type k :
  select_books cosine_similarity data bookId type k = Return None ↔ accepted type = false.
Proof.
  unfold select_books, accepted.
  destruct (eq_str type "summary"); simpl.
  { by destruct (similar_summary _ _ _ _). }
  destruct (eq_str type "genres"); simpl.
  { by destruct (similar_genre _ _ _ _). }
  destruct (truthy type); simpl; [done|].
  by destruct (similar_summary _ _ _ _), (similar_genre _ _ _ _).
Qed.

Lemma select_books_None type k :
  select_books cosine_similarity data None type k
    = if accepted type then Raise KeyError else Return None.
Proof.
  unfold select_books, accepted.
  destruct (eq_str type "summary"); [done|].
  destruct (eq_str type "genres"); [done|].
  by destruct (truthy type).
Qed.

End ModeFacts.

(** C9: [books] is left unbound exactly when [type] is truthy and is neither
    'summary' nor 'genres'; the call then raises UnboundLocalError once the
    title has been resolved, and nothing is displayed.  'summary', 'genres'
    and the falsy values are the modes that bind it. *)
Theorem unknown_mode_is_unbound cosine_similarity fetch re_search data
    (book_name : option string) (type : value) (k : nat) (w : world) :
  (∀ bookId,
     select_books cosine_similarity data bookId type k = Return None ↔
     truthy type = true ∧ eq_str type "summary" = false ∧ eq_str type "genres" = false) ∧
  (truthy type = true → eq_str type "summary" = false → eq_str type "genres" = false →
   recommend_books cosine_similarity fetch re_search data book_name type k w
     = (Raise UnboundLocalError, (name_to_bookId re_search data book_name w).2)).
Proof.
  split.
  - intros bookId. rewrite select_books_unbound. unfold accepted.
    destruct (eq_str type "summary"), (eq_str type "genres"), (truthy type);
      simpl; split; try done; by intros (? & ? & ?).
  - intros Ht Hs Hg. unfold recommend_books.
    destruct (name_to_bookId re_search data book_name w) as [bookId w'] eqn:Hres.
    assert (select_books cosine_similarity data bookId type k = Return None) as ->.
    { apply select_books_unbound. unfold accepted. by rewrite Ht, Hs, Hg. }
    done.
Qed.

Lemma unknown_mode_is_unbound_witness :
  recommend_books (Fixtures.table_cosine Fixtures.shelf_scores) Fixtures.online
                  Fixtures.no_regex Fixtures.shelf (Some "Emma") (PyStr "author") 2
                  (mkWorld [] [])
    = (Raise UnboundLocalError, mkWorld [] [Print "emma"]).
Proof.
  exact (proj2 (unknown_mode_is_unbound (Fixtures.table_cosine Fixtures.shelf_scores)
                  Fixtures.online Fixtures.no_regex Fixtures.shelf (Some "Emma")
                  (PyStr "author") 2 (mkWorld [] []))
               eq_refl eq_refl eq_refl).
Defined.

(** C6, as the code has it: when [name_to_bookId] returns None (the title was
    not found), [recommend_books] computes and displays no recommendation
    list and writes nothing after the resolver's messages, but it does not
    return: it raises KeyError from the lookup of None in the index when
    [type] is 'summary', 'genres' or falsy, and UnboundLocalError
    otherwise. *)
Theorem unresolved_name_raises cosine_similarity fetch re_search data
    (book_name : option string) (type : value) (k : nat) (w w' : world) :
  name_to_bookId re_search data book_name w = (None, w') →
  select_books cosine_similarity data None type k
    = (if accepted type then Raise KeyError else Return None) ∧
  recommend_books cosine_similarity fetch re_search data book_name type k w
    = (Raise (if accepted type then KeyError else UnboundLocalError), w').
Proof.
  intros Hres. split; [apply select_books_None|].
  unfold recommend_books. rewrite Hres, select_books_None.
  by destruct (accepted type).
Qed.

Lemma unresolved_name_raises_witness :
  recommend_books (Fixtures.table_cosine Fixtures.shelf_scores) Fixtures.online
                  Fixtures.no_regex Fixtures.shelf (Some "zzz") PyNone 2 (mkWorld [] [])
    = (Raise KeyError, mkWorld [] [Print "zzz"; Print "Book not found!"]).
Proof.
  exact (proj2 (unresolved_name_raises (Fixtures.table_cosine Fixtures.shelf_scores)
                  Fixtures.online Fixtures.no_regex Fixtures.shelf (Some "zzz")
                  PyNone 2 (mkWorld [] [])
                  (mkWorld [] [Print "zzz"; Print "Book not found!"]) eq_refl)).
Defined.

(** C6, as stated, fails: "zzz" is not found, and the call with mode 'genres'
    does not return silently, it raises KeyError to its caller.  And "harry"
    is ambiguous, yet its recommendations are computed and displayed, for the
    first row whose title contains it. *)
Lemma not_found_raises_KeyError :
  name_to_bookId Fixtures.no_regex Fixtures.shelf (Some "zzz") (mkWorld [] [])
    = (None, mkWorld [] [Print "zzz"; Print "Book not found!"]) ∧
  recommend_books (Fixtures.table_cosine Fixtures.shelf_scores) Fixtures.online
                  Fixtures.no_regex Fixtures.shelf (Some "zzz") (PyStr "genres") 5
                  (mkWorld [] [])
    = (Raise KeyError, mkWorld [] [Print "zzz"; Print "Book not found!"]) ∧
  (correct_name Fixtures.series "harry" (mkWorld [] [])).1 = CnInt 1 ∧
  (recommend_books Fixtures.same_text_cosine Fixtures.online Fixtures.no_regex
                   Fixtures.series (Some "harry") (PyStr "summary") 1 (mkWorld [] [])).1
    = Return ().
Proof. by vm_compute. Qed.

(** * Further properties *)

(** ** The console *)

Lemma wrote_wrote a b w : wrote b (wrote a w) = wrote (a ++ b) w.
Proof. unfold wrote. simpl. by rewrite (assoc_L (++)). Qed.

Lemma wrote_nil w : wrote [] w = w.
Proof. destruct w. unfold wrote. simpl. by rewrite (right_id_L [] (++)). Qed.

Lemma foldl_print l w : foldl (λ w book, print book w) w l = wrote (Print <$> l) w.
Proof.
  revert w. induction l as [|t l IH]; intros w; simpl; [by rewrite wrote_nil|].
  rewrite IH. apply (wrote_wrote [Print t]).
Qed.

Lemma follows_refl w : follows w w.
Proof. by split. Qed.

Lemma follows_trans w1 w2 w3 : follows w1 w2 → follows w2 w3 → follows w1 w3.
Proof. intros [? ?] [? ?]. split; by etrans. Qed.

Lemma follows_wrote out w : follows w (wrote out w).
Proof. split; simpl; [by apply prefix_app_r|done]. Qed.

(** ** More on title resolution *)

Section ResolutionFacts.

Variable re_search : string → string → option bool.
Variable data : list Book.

Lemma possible_books_containing q :
  get_possible_books data q = title <$> containing data q.
Proof. apply possible_books_rows. Qed.

Lemma containing_lower q : containing data (lower q) = containing data q.
Proof. unfold containing. by rewrite lower_idemp. Qed.

Lemma correct_name_zero n w :
  cn_eq_int (correct_name data n w).1 0 = true → get_possible_books data n = [].
Proof.
  unfold correct_name. destruct (bool_decide _); [|done].
  by destruct (get_possible_books data n) as [|t [|t' ts]].
Qed.

(** With one candidate [correct_name] prints nothing and returns no marker. *)
Lemma correct_name_quiet n w t :
  get_possible_books data n = [t] →
  ∃ r, correct_name data n w = (r, w) ∧ cn_eq_int r 0 = false ∧ cn_eq_int r 1 = false.
Proof.
  intros Hone. unfold correct_name. rewrite Hone.
  destruct (bool_decide _); by eexists.
Qed.

Lemma correct_name_wrote n w :
  ∃ out, (correct_name data n w).2 = wrote out w.
Proof.
  unfold correct_name. destruct (bool_decide _); [|exists []; by rewrite wrote_nil].
  destruct (get_possible_books data n) as [|t [|t' ts]]; simpl.
  - by exists [Print "Book not found!"].
  - exists []. by rewrite wrote_nil.
  - exists (did_you_mean (t :: t' :: ts)).
    change (foldl (λ w book, print book w)
              (print "Did you mean: " (print "Book not found!" w)) (t :: t' :: ts)
            = wrote (did_you_mean (t :: t' :: ts)) w).
    rewrite foldl_print. unfold print, wrote, did_you_mean. simpl.
    by rewrite <- !(assoc_L (++)).
Qed.

Lemma correct_name_did_you_mean n w t1 t2 ts :
  n ∉ (lower <$> (title <$> data)) →
  get_possible_books data n = t1 :: t2 :: ts →
  correct_name data n w = (CnInt 1, wrote (did_you_mean (t1 :: t2 :: ts)) w).
Proof.
  intros Hnot Hposs. rewrite (correct_name_ambiguous data n w t1 t2 ts) by done.
  f_equal. rewrite foldl_print. unfold print, wrote, did_you_mean. simpl.
  by rewrite <- !(assoc_L (++)).
Qed.

(** The lookup of an ASCII name without metacharacters among ASCII titles. *)
Lemma first_containing_ascii q :
  plain q = true → ascii_only q = true → ascii_titles data →
  first_containing re_search data (lower q) = head (index <$> containing data q).
Proof.
  intros Hplain Hascii Htitles.
  rewrite first_containing_plain;
    [|by rewrite plain_lower|by rewrite ascii_only_lower|done].
  by rewrite lower_idemp.
Qed.

(** The value of [resolve] for such a name. *)
Lemma resolve_plain again q w :
  plain q = true → ascii_only q = true → ascii_titles data →
  (resolve re_search data again q w).1 = head (index <$> containing data q).
Proof.
  intros Hplain Hascii Htitles. unfold resolve. cbv zeta.
  pose proof (correct_name_zero (lower q) (print (lower q) w)) as Hzero.
  destruct (correct_name data (lower q) (print (lower q) w)) as [r w1].
  simpl in Hzero. destruct (cn_eq_int r 0).
  - rewrite get_possible_books_lower, possible_books_containing in Hzero.
    by rewrite (fmap_nil_inv _ _ (Hzero eq_refl)).
  - destruct (correct_name data (lower q) w1) as [r' w2].
    rewrite first_containing_ascii by done.
    by destruct (head (index <$> containing data q)).
Qed.

(** The second argument of [resolve] is only run on consoles that have the
    input of the one it starts from. *)
Lemma resolve_again_ext again again' q w :
  (∀ w', stdin w' = stdin w → again w' = again' w') →
  resolve re_search data again q w = resolve re_search data again' q w.
Proof.
  intros Hext. unfold resolve. cbv zeta.
  destruct (correct_name_wrote (lower q) (print (lower q) w)) as [out1 H1].
  destruct (correct_name data (lower q) (print (lower q) w)) as [r w1].
  simpl in H1. subst w1. destruct (cn_eq_int r 0); [done|].
  destruct (correct_name_wrote (lower q) (wrote out1 (print (lower q) w))) as [out2 H2].
  destruct (correct_name data (lower q) (wrote out1 (print (lower q) w))) as [r' w2].
  simpl in H2. subst w2. destruct (cn_eq_int r' 1); [|done].
  by rewrite Hext.
Qed.

End ResolutionFacts.

(** X1: for an ASCII name without regular-expression metacharacters and a
    catalog whose titles are ASCII, [name_to_bookId] returns the label of the
    first row of the catalog whose title contains the name ignoring case, and
    None when there is no such row; what is typed at a prompt has no part in
    it. *)
Theorem name_to_bookId_first_containing re_search data (q : string) (w : world) :
  q ≠ "" → plain q = true → ascii_only q = true → ascii_titles data →
  (name_to_bookId re_search data (Some q) w).1 = head (index <$> containing data q).
Proof.
  intros Hq Hplain Hascii Htitles. destruct q as [|c s]; [done|].
  unfold name_to_bookId. by apply resolve_plain.
Qed.

Lemma name_to_bookId_first_containing_witness :
  (name_to_bookId Fixtures.no_regex Fixtures.series (Some "potter")
     (mkWorld ["emma"] [])).1 = Some (Id "b0").
Proof.
  exact (name_to_bookId_first_containing Fixtures.no_regex Fixtures.series "potter"
           (mkWorld ["emma"] []) ltac:(discriminate) eq_refl eq_refl
           ltac:(repeat constructor)).
Defined.

(** X2: for an ASCII name without metacharacters and a catalog whose titles
    are ASCII: when exactly one title contains the name (be it equal to the
    name up to case or not), [name_to_bookId] returns the label of that row;
    it prints the lower-cased name and nothing else, and reads nothing from
    the console. *)
Theorem single_candidate_resolves re_search data (q t : string) (w : world) :
  q ≠ "" → plain q = true → ascii_only q = true → ascii_titles data →
  get_possible_books data q = [t] →
  ∃ b, containing data q = [b] ∧ title b = t ∧
       name_to_bookId re_search data (Some q) w = (Some (index b), print (lower q) w).
Proof.
  intros Hq Hplain Hascii Htitles Hone.
  pose proof (first_containing_ascii re_search data q Hplain Hascii Htitles) as Hfirst.
  pose proof Hone as Hrows. rewrite possible_books_containing in Hrows.
  destruct (containing data q) as [|b [|b' rows]] eqn:Hcont; simplify_eq/=.
  exists b. do 2 (split; [done|]).
  destruct q as [|c s]; [done|]. unfold name_to_bookId, resolve. cbv zeta.
  rewrite <- get_possible_books_lower in Hone.
  destruct (correct_name_quiet data (lower (String c s)) (print (lower (String c s)) w) _ Hone)
    as (r & -> & -> & _).
  destruct (correct_name_quiet data (lower (String c s)) (print (lower (String c s)) w) _ Hone)
    as (r' & -> & _ & ->).
  by rewrite Hfirst.
Qed.

Lemma single_candidate_resolves_witness :
  name_to_bookId Fixtures.no_regex Fixtures.series (Some "EMM") (mkWorld ["x"] [])
    = (Some (Id "b2"), mkWorld ["x"] [Print "emm"]).
Proof.
  destruct (single_candidate_resolves Fixtures.no_regex Fixtures.series "EMM" "Emma"
              (mkWorld ["x"] [])) as (b & Hb & _ & Hres);
    [discriminate|reflexivity|reflexivity|repeat constructor|reflexivity|].
  injection Hb as <-. exact Hres.
Defined.

(** X3: for an ASCII name without metacharacters and a catalog whose titles
    are ASCII: when the name equals no title and is contained
    in two or more, the candidates are printed twice (once by each call of
    [correct_name]), then [name_to_bookId()] runs on the console for its
    prompts and messages only, and the value returned is the label of the
    first row whose title contains the original name. *)
Theorem ambiguous_name_prompts_then_takes_first re_search data
    (q t1 t2 : string) (ts : list string) (w : world) :
  q ≠ "" → plain q = true → ascii_only q = true → ascii_titles data →
  lower q ∉ (lower <$> (title <$> data)) →
  get_possible_books data q = t1 :: t2 :: ts →
  ∃ b rows,
    containing data q = b :: rows ∧ title b = t1 ∧
    name_to_bookId re_search data (Some q) w
      = (Some (index b),
         (name_to_bookId re_search data None
            (wrote (Print (lower q) :: did_you_mean (t1 :: t2 :: ts)
                    ++ did_you_mean (t1 :: t2 :: ts)) w)).2).
Proof.
  intros Hq Hplain Hascii Htitles Hnot Hposs.
  pose proof (first_containing_ascii re_search data q Hplain Hascii Htitles) as Hfirst.
  pose proof Hposs as Hrows. rewrite possible_books_containing in Hrows.
  destruct (containing data q) as [|b rows] eqn:Hcont; [done|].
  injection Hrows as Ht _. exists b, rows. do 2 (split; [done|]).
  destruct q as [|c s]; [done|]. unfold name_to_bookId, resolve. cbv zeta.
  rewrite <- get_possible_books_lower in Hposs.
  rewrite !(correct_name_did_you_mean data _ _ t1 t2 ts) by done.
  cbn [cn_eq_int Z.eqb]. rewrite Hfirst. simpl.
  do 3 f_equal. by rewrite <- !(assoc_L (++)).
Qed.

Lemma ambiguous_name_prompts_then_takes_first_witness :
  name_to_bookId Fixtures.no_regex Fixtures.series (Some "Harry") (mkWorld ["emma"] [])
    = (Some (Id "b0"),
       mkWorld [] (Print "harry"
                   :: did_you_mean ["Harry Potter 1"; "Harry Potter 2"]
                   ++ did_you_mean ["Harry Potter 1"; "Harry Potter 2"]
                   ++ [Prompt "Book: "; Print "emma"])).
Proof.
  destruct (ambiguous_name_prompts_then_takes_first Fixtures.no_regex Fixtures.series
              "Harry" "Harry Potter 1" "Harry Potter 2" [] (mkWorld ["emma"] []))
    as (b & rows & Hb & _ & Hres).
  - discriminate.
  - reflexivity.
  - reflexivity.
  - repeat constructor.
  - apply (bool_decide_unpack _). vm_compute. reflexivity.
  - reflexivity.
  - injection Hb as <- _. exact Hres.
Defined.



(** X5: a name typed at the prompt, after any number of empty lines, is
    resolved as the same name passed as argument would be on the rest of the
    input; each line read costs one prompt. *)
Theorem prompted_name_is_passed_name re_search data
    (n : nat) (line : string) (rest : list string) (out : list event) :
  line ≠ "" →
  name_to_bookId re_search data None (mkWorld (replicate n "" ++ line :: rest) out)
    = name_to_bookId re_search data (Some line)
        (mkWorld rest (out ++ replicate (S n) (Prompt "Book: "))).
Proof.
  intros Hline. destruct line as [|c s]; [done|]. unfold name_to_bookId. simpl stdin.
  simpl stdout. revert out. induction n as [|n IH]; intros out.
  - cbn [replicate app name_to_bookId_prompted String.eqb].
    apply resolve_again_ext. intros w' Hw'. simpl in Hw'. by rewrite Hw'.
  - rewrite replicate_S. cbn [app name_to_bookId_prompted String.eqb].
    rewrite IH. by rewrite <- (assoc_L (++)).
Qed.

Lemma prompted_name_is_passed_name_witness :
  name_to_bookId Fixtures.no_regex Fixtures.series None
                 (mkWorld [""; ""; "emma"; "x"] [])
    = (Some (Id "b2"),
       mkWorld ["x"] [Prompt "Book: "; Prompt "Book: "; Prompt "Book: "; Print "emma"]).
Proof.
  exact (prompted_name_is_passed_name Fixtures.no_regex Fixtures.series 2 "emma" ["x"] []
           ltac:(discriminate)).
Defined.

(** X6: when the input holds empty lines only (or nothing), [name_to_bookId]
    called without a name prompts once per line and once more, the last
    [input] raises, and it prints "Invalid input." and returns None. *)
Theorem blank_input_ends_invalid re_search data (n : nat) (out : list event) :
  name_to_bookId re_search data None (mkWorld (replicate n "") out)
    = (None, mkWorld [] (out ++ replicate (S n) (Prompt "Book: ")
                             ++ [Print "Invalid input."])).
Proof.
  unfold name_to_bookId. simpl stdin. simpl stdout. revert out.
  induction n as [|n IH]; intros out; [done|].
  cbn [replicate name_to_bookId_prompted String.eqb]. rewrite IH.
  by rewrite <- (assoc_L (++)).
Qed.

(** ** What a call does to the console *)

Section ConsoleFacts.

Variable cosine_similarity : list string → nat → nat → Q.
Variable fetch : string → bool.
Variable re_search : string → string → option bool.
Variable data : list Book.

Lemma resolve_follows again q w :
  (∀ w', stdin w' = stdin w → follows w' (again w').2) →
  follows w (resolve re_search data again q w).2.
Proof.
  intros Hagain. unfold resolve. cbv zeta.
  destruct (correct_name_wrote data (lower q) (print (lower q) w)) as [out1 H1].
  destruct (correct_name data (lower q) (print (lower q) w)) as [r w1].
  simpl in H1. subst w1.
  assert (follows w (wrote out1 (print (lower q) w))) as Hw1.
  { eapply follows_trans; [apply (follows_wrote [Print (lower q)])|apply follows_wrote]. }
  destruct (cn_eq_int r 0); [done|].
  destruct (correct_name_wrote data (lower q) (wrote out1 (print (lower q) w)))
    as [out2 H2].
  destruct (correct_name data (lower q) (wrote out1 (print (lower q) w))) as [r' w2].
  simpl in H2. subst w2.
  set (w2 := wrote out2 (wrote out1 (print (lower q) w))).
  assert (follows w w2) as Hw2.
  { eapply follows_trans; [exact Hw1|apply follows_wrote]. }
  assert (follows w (if cn_eq_int r' 1 then (again w2).2 else w2)) as Hw3.
  { destruct (cn_eq_int r' 1); [|done].
    eapply follows_trans; [exact Hw2|]. by apply Hagain. }
  destruct (first_containing re_search data (lower q)); simpl; [done|].
  eapply follows_trans; [exact Hw3|]. apply (follows_wrote [Print "Invalid input."]).
Qed.

Lemma prompted_follows lines out :
  follows (mkWorld lines out) (name_to_bookId_prompted re_search data lines out).2.
Proof.
  revert out. induction lines as [|line rest IH]; intros out.
  - split; simpl; [by apply prefix_app_r|done].
  - assert (follows (mkWorld (line :: rest) out) (mkWorld rest (out ++ [Prompt "Book: "])))
      as Hread.
    { split; simpl; [by apply prefix_app_r|by apply suffix_cons_r]. }
    cbn [name_to_bookId_prompted]. destruct (String.eqb line "").
    + eapply follows_trans; [exact Hread|apply IH].
    + eapply follows_trans; [exact Hread|]. apply resolve_follows.
      intros [lines' out'] Hw'. simpl in *. subst lines'. apply IH.
Qed.

Lemma name_to_bookId_follows book_name w :
  follows w (name_to_bookId re_search data book_name w).2.
Proof.
  assert (follows w (name_to_bookId_prompted re_search data (stdin w) (stdout w)).2)
    as Hprompt by (destruct w; apply prompted_follows).
  destruct book_name as [[|c s]|]; [done| |done].
  unfold name_to_bookId. apply resolve_follows.
  intros [lines' out'] Hw'. apply prompted_follows.
Qed.

(** *** Displaying *)

Lemma print_book_wrote bookId w :
  ∃ out, (print_book fetch data bookId w).2 = wrote out w.
Proof.
  unfold print_book.
  destruct (filter (λ b, index b = bookId) data) as [|b [|b' rows]];
    [exists []; by rewrite wrote_nil| |exists []; by rewrite wrote_nil].
  destruct (fetch (coverImg b)); [|exists []; by rewrite wrote_nil].
  exists (card b). unfold wrote, print, emit, card. simpl.
  by rewrite <- !(assoc_L (++)).
Qed.

Lemma print_book_details_wrote ids w :
  ∃ out, (print_book_details fetch data ids w).2 = wrote out w.
Proof.
  revert w. induction ids as [|bookId ids IH]; intros w; simpl.
  { exists []. by rewrite wrote_nil. }
  destruct (print_book_wrote bookId w) as [out1 H1].
  destruct (print_book fetch data bookId w) as [[[]|e] w1]; simpl in H1; subst w1.
  - destruct (IH (wrote out1 w)) as [out2 ->]. rewrite wrote_wrote. by eexists.
  - by eexists.
Qed.

Lemma filter_label_absent (bookId : label) :
  bookId ∉ index <$> data → filter (λ b, index b = bookId) data = [].
Proof.
  intros Hnot. induction data as [|b rows IH]; [done|].
  rewrite fmap_cons, not_elem_of_cons in Hnot. destruct Hnot as [Hne Hrest].
  rewrite filter_cons_False by done. by apply IH.
Qed.

Lemma filter_label_unique b :
  NoDup (index <$> data) → b ∈ data → filter (λ b', index b' = index b) data = [b].
Proof.
  intros Huniq Hin. induction data as [|x rows IH]; [by apply elem_of_nil in Hin|].
  rewrite fmap_cons in Huniq. apply NoDup_cons in Huniq as [Hfresh Huniq].
  apply elem_of_cons in Hin as [->|Hin].
  - rewrite filter_cons_True by done. f_equal.
    clear IH. induction rows as [|y rows IH]; [done|].
    rewrite fmap_cons, not_elem_of_cons in Hfresh. destruct Hfresh as [Hne Hfresh].
    rewrite fmap_cons in Huniq. apply NoDup_cons in Huniq as [_ Huniq].
    rewrite filter_cons_False by done. by apply IH.
  - rewrite filter_cons_False; [by apply IH|].
    intros Heq. apply Hfresh. rewrite Heq. by apply list_elem_of_fmap_2.
Qed.

Lemma print_book_card b w :
  NoDup (index <$> data) → b ∈ data → fetch (coverImg b) = true →
  print_book fetch data (index b) w = (Return (), wrote (card b) w).
Proof.
  intros Huniq Hin Hfetch. unfold print_book.
  rewrite filter_label_unique, Hfetch by done. f_equal.
  unfold wrote, print, emit, card. simpl. by rewrite <- !(assoc_L (++)).
Qed.

Lemma print_book_details_cards bs w :
  NoDup (index <$> data) →
  Forall (λ b, b ∈ data ∧ fetch (coverImg b) = true) bs →
  ∀ rest, print_book_details fetch data ((index <$> bs) ++ rest) w
          = print_book_details fetch data rest (wrote (concat (card <$> bs)) w).
Proof.
  intros Huniq Hall. revert w. induction Hall as [|b bs [Hin Hfetch] _ IH]; intros w rest.
  { simpl. by rewrite wrote_nil. }
  rewrite fmap_cons. cbn [app print_book_details].
  rewrite print_book_card by done. rewrite IH, wrote_wrote. done.
Qed.

Lemma print_book_details_all bs w :
  NoDup (index <$> data) →
  Forall (λ b, b ∈ data ∧ fetch (coverImg b) = true) bs →
  print_book_details fetch data (index <$> bs) w
    = (Return (), wrote (concat (card <$> bs)) w).
Proof.
  intros Huniq Hall. rewrite <- (right_id_L [] (++) (index <$> bs)).
  by rewrite (print_book_details_cards bs w Huniq Hall []).
Qed.

End ConsoleFacts.

(** X7: a call only appends to what was written and only consumes input from
    the front: after [name_to_bookId], and after [recommend_books], the output
    written before the call is a prefix of the output, and the input left is
    the end of the input there was. *)
Theorem console_is_append_only cosine_similarity fetch re_search data
    (book_name : option string) (type : value) (k : nat) (w : world) :
  follows w (name_to_bookId re_search data book_name w).2 ∧
  follows w (recommend_books cosine_similarity fetch re_search data book_name type k w).2.
Proof.
  split; [apply name_to_bookId_follows|].
  unfold recommend_books.
  pose proof (name_to_bookId_follows re_search data book_name w) as Hres.
  destruct (name_to_bookId re_search data book_name w) as [bookId w1]. simpl in Hres.
  destruct (select_books cosine_similarity data bookId type k) as [[books|]|e];
    [|done..].
  destruct (print_book_details_wrote fetch data (iterate books) w1) as [out ->].
  eapply follows_trans; [exact Hres|apply follows_wrote].
Qed.

(** X8: in a catalog with unique labels, [print_book_details] on the labels
    of rows whose covers can be fetched returns after writing, for each row in
    turn, its cover, title, author, rating, genres and a blank line; it reads
    no input. *)
Theorem print_book_details_displays fetch data (bs : list Book) (w : world) :
  NoDup (index <$> data) →
  Forall (λ b, b ∈ data ∧ fetch (coverImg b) = true) bs →
  print_book_details fetch data (index <$> bs) w
    = (Return (), wrote (concat (card <$> bs)) w).
Proof.
  intros Huniq Hall. by apply print_book_details_all.
Qed.

Lemma print_book_details_displays_witness :
  print_book_details Fixtures.online Fixtures.shadowed [Id "b1"; Id "b0"] (mkWorld ["x"] [])
    = (Return (),
       mkWorld ["x"]
         [ Display "http://covers.example/b1"; Print "Title: It"; Print "Author: Anon";
           Print "Rating: 4.0"; Print "Genres: ['Fiction']"; Print (String "010" "");
           Display "http://covers.example/b0"; Print "Title: Little Women";
           Print "Author: Anon"; Print "Rating: 4.0"; Print "Genres: ['Fiction']";
           Print (String "010" "") ]).
Proof.
  apply (print_book_details_displays Fixtures.online Fixtures.shadowed
           [Fixtures.book "b1" "It" "a clown"; Fixtures.book "b0" "Little Women" "four sisters"]
           (mkWorld ["x"] [])).
  - apply (bool_decide_unpack _). vm_compute. reflexivity.
  - repeat constructor.
Defined.

(** X9: the loop of [print_book_details] stops at the first label it cannot
    show, a label that is not in the catalog (KeyError) or a row whose cover
    cannot be fetched (the fetch raises): the rows before it have been
    written in full, nothing of it or of the labels after it is written, and
    the exception leaves the function. *)
Theorem print_book_details_stops fetch data (bs : list Book) (bookId : label)
    (rest : list label) (e : exn) (w : world) :
  NoDup (index <$> data) →
  Forall (λ b, b ∈ data ∧ fetch (coverImg b) = true) bs →
  ((bookId ∉ (index <$> data)) ∧ e = KeyError) ∨
  (∃ b, b ∈ data ∧ index b = bookId ∧ fetch (coverImg b) = false ∧ e = OtherError) →
  print_book_details fetch data ((index <$> bs) ++ bookId :: rest) w
    = (Raise e, wrote (concat (card <$> bs)) w).
Proof.
  intros Huniq Hall Hcause.
  rewrite (print_book_details_cards fetch data bs w Huniq Hall).
  cbn [print_book_details]. unfold print_book.
  destruct Hcause as [[Hnot ->]|(b & Hin & <- & Hfetch & ->)].
  - by rewrite filter_label_absent.
  - by rewrite filter_label_unique, Hfetch.
Qed.

Lemma print_book_details_stops_witness :
  print_book_details Samples.offline_b3 Fixtures.shelf
                     [Id "b1"; Id "b3"; Id "b2"] (mkWorld [] [])
    = (Raise OtherError,
       mkWorld [] (card (Fixtures.book "b1" "Persuasion" "d1"))) ∧
  print_book_details Samples.offline_b3 Fixtures.shelf
                     [Id "b1"; Id "b9"; Id "b2"] (mkWorld [] [])
    = (Raise KeyError,
       mkWorld [] (card (Fixtures.book "b1" "Persuasion" "d1"))).
Proof.
  assert (NoDup (index <$> Fixtures.shelf)) as Huniq.
  { apply (bool_decide_unpack _). vm_compute. reflexivity. }
  assert (Forall (λ b, b ∈ Fixtures.shelf ∧ Samples.offline_b3 (coverImg b) = true)
                 [Fixtures.book "b1" "Persuasion" "d1"]) as Hall.
  { repeat constructor. }
  split.
  - apply (print_book_details_stops Samples.offline_b3 Fixtures.shelf
             [Fixtures.book "b1" "Persuasion" "d1"] (Id "b3") [Id "b2"] OtherError
             (mkWorld [] []) Huniq Hall).
    right. exists (Fixtures.book "b3" "Ulysses" "d3").
    split; [repeat constructor|]. by repeat split.
  - apply (print_book_details_stops Samples.offline_b3 Fixtures.shelf
             [Fixtures.book "b1" "Persuasion" "d1"] (Id "b9") [Id "b2"] KeyError
             (mkWorld [] []) Huniq Hall).
    left. split; [|reflexivity]. apply (bool_decide_unpack _). vm_compute. reflexivity.
Defined.

(** ** More on the ranking *)

Lemma ranked_before_of_le (x z : nat * Q) :
  (z.2 <= x.2)%Q → x.1 < z.1 → ranked_before x z.
Proof.
  intros Hle Hlt. unfold ranked_before.
  destruct (Qle_lt_or_eq _ _ Hle) as [?|?]; [by left|by right].
Qed.

Lemma ranked_before_le (y z : nat * Q) : ranked_before y z → (z.2 <= y.2)%Q.
Proof.
  intros [Hlt|[Heq _]]; [by apply Qlt_le_weak|]. rewrite Heq. apply Qle_refl.
Qed.

Lemma insert_desc_ranked x l :
  Forall (λ z, x.1 < z.1) l →
  StronglySorted ranked_before l →
  StronglySorted ranked_before (insert_desc x l).
Proof.
  intros Hlater Hsorted. induction Hsorted as [|y l Hl IH Hy]; simpl.
  { by repeat constructor. }
  apply Forall_cons in Hlater as [Hxy Hlater].
  destruct (Qle_bool y.2 x.2) eqn:Hle.
  - apply Qle_bool_iff in Hle. constructor; [by constructor|].
    constructor; [by apply ranked_before_of_le|].
    rewrite Forall_forall in Hy, Hlater. apply Forall_forall. intros z Hz.
    apply ranked_before_of_le; [|by apply Hlater].
    eapply Qle_trans; [apply ranked_before_le, Hy, Hz|done].
  - constructor; [by apply IH|].
    rewrite insert_desc_perm. constructor; [|done].
    left. apply Qnot_le_lt. intros Hyx. apply Qle_bool_iff in Hyx. congruence.
Qed.

Lemma sorted_reverse_ranked (f : nat → Q) n a :
  StronglySorted ranked_before (sorted_reverse ((λ j, (j, f j)) <$> seq a n)).
Proof.
  revert a. induction n as [|n IH]; intros a; simpl; [constructor|].
  apply insert_desc_ranked; [|apply IH].
  rewrite sorted_reverse_perm. apply Forall_fmap, Forall_forall.
  intros j Hj%elem_of_seq. simpl. lia.
Qed.

(** X10: the ranking is in descending order of the score, and rows with
    equal scores are in catalog order: with the fact that it lists every row
    once, this fixes the rank of every row. *)
Theorem ranking_breaks_ties_by_position cosine_similarity data (loc : nat) :
  StronglySorted ranked_before (sorted_similar_books cosine_similarity data loc) ∧
  (sorted_similar_books cosine_similarity data loc).*1 ≡ₚ seq 0 (length data).
Proof.
  split.
  - unfold sorted_similar_books. rewrite enumerate_scores. apply sorted_reverse_ranked.
  - rewrite sorted_perm, <- list_fmap_compose.
    rewrite (list_fmap_ext _ id (seq 0 (length data))) by done.
    by rewrite list_fmap_id.
Qed.

(** ** More on the recommendations *)

Section RecommendationFacts.

Variable cosine_similarity : list string → nat → nat → Q.
Variable data : list Book.

Local Abbreviation sorted loc := (sorted_similar_books cosine_similarity data loc).
Local Abbreviation summary := (similar_summary cosine_similarity data).
Local Abbreviation genre := (similar_genre cosine_similarity data).

Lemma get_loc_absent (bookId : option label) :
  (∀ l, bookId = Some l → l ∉ index <$> data) →
  get_loc data bookId = Raise KeyError.
Proof.
  intros Habsent. destruct bookId as [l|]; [|done].
  pose proof (get_loc_spec data l) as Hspec.
  destruct (get_loc data (Some l)) as [i|e].
  - destruct Hspec as [Hi _]. destruct (Habsent l eq_refl).
    by eapply list_elem_of_lookup_2.
  - by destruct Hspec as [-> _].
Qed.

Lemma ranks_slice_NoDup loc a m : NoDup (take m (drop a (sorted loc))).*1.
Proof.
  rewrite fmap_take, fmap_drop.
  eapply sublist_NoDup; [|apply sublist_take].
  eapply sublist_NoDup; [|apply sublist_drop]. apply sorted_rows_NoDup.
Qed.

(** Distinct rows of a catalog with unique labels carry distinct labels. *)
Lemma rank_labels_NoDup (ps : list (nat * Q)) (ids : list label) :
  NoDup (index <$> data) → NoDup ps.*1 →
  Forall2 (λ p id, (index <$> data) !! p.1 = Some id) ps ids →
  NoDup ids ∧ ∀ id, id ∈ ids → id ∈ index <$> data.
Proof.
  intros Huniq Hrows Hall. induction Hall as [|p id ps ids Hp Hall IH].
  { split; [constructor|]. by intros id ?%elem_of_nil. }
  rewrite fmap_cons in Hrows. apply NoDup_cons in Hrows as [Hfresh Hrows].
  destruct (IH Hrows) as [Hnd Hsub]. split.
  - constructor; [|done]. intros Hin.
    apply list_elem_of_lookup in Hin as [i Hi].
    destruct (Forall2_lookup_r _ _ _ _ _ Hall Hi) as (p' & Hp' & Hrow).
    assert (p'.1 = p.1) as Heq.
    { simpl in Hp, Hrow. by eapply (NoDup_lookup (index <$> data)). }
    apply Hfresh. rewrite <- Heq. apply list_elem_of_fmap_2.
    by eapply list_elem_of_lookup_2.
  - intros id' [->|Hin]%elem_of_cons; [|by apply Hsub].
    by eapply list_elem_of_lookup_2.
Qed.

(** The two loops together are one loop over ranks 1 to 2k. *)
Lemma summary_then_genre (bookId : label) k :
  bookId ∈ index <$> data → 2 * k + 1 ≤ length data →
  ∃ loc s g,
    summary (Some bookId) k = Return s ∧ genre (Some bookId) k = Return g ∧
    length s = k ∧ length g = k ∧
    Forall2 (λ p id, (index <$> data) !! p.1 = Some id)
            (take (k + k) (drop 1 (sorted loc))) (s ++ g).
Proof.
  intros Hin Hlen.
  destruct (summary_of_known_book cosine_similarity data bookId k Hin)
    as (loc & s & Hloc & _ & Hs & Hks & _); [lia|].
  destruct (genre_of_known_book cosine_similarity data bookId k Hin Hlen)
    as (loc' & g & Hloc' & _ & Hg & Hkg & _).
  destruct (ranks_of_known_book cosine_similarity data bookId 1 (k + k) Hin)
    as (loc'' & ids & Hloc'' & _ & Hids & _ & Hall); [lia|].
  assert (loc' = loc) as -> by congruence.
  assert (loc'' = loc) as -> by congruence.
  exists loc, s, g. do 4 (split; [done|]).
  revert Hs Hg Hids. unfold similar_summary, similar_genre. rewrite Hloc. simpl.
  rewrite seq_app, mapM_result_app. replace (1 + k) with (k + 1) by lia.
  intros -> ->. simpl. by intros [= <-].
Qed.

Lemma summary_then_genre_NoDup (bookId : label) k :
  NoDup (index <$> data) →
  bookId ∈ index <$> data → 2 * k + 1 ≤ length data →
  ∃ s g,
    summary (Some bookId) k = Return s ∧ genre (Some bookId) k = Return g ∧
    length s = k ∧ length g = k ∧
    NoDup (s ++ g) ∧ ∀ id, id ∈ s ++ g → id ∈ index <$> data.
Proof.
  intros Huniq Hin Hlen.
  destruct (summary_then_genre bookId k Hin Hlen)
    as (loc & s & g & Hs & Hg & Hks & Hkg & Hall).
  exists s, g. do 4 (split; [done|]).
  eapply rank_labels_NoDup; [done|apply ranks_slice_NoDup|done].
Qed.

End RecommendationFacts.

(** X11: a label that is not in the catalog, and None, make both
    [similar_summary] and [similar_genre] raise KeyError, for every k, also
    k = 0. *)
Theorem unknown_bookId_is_KeyError cosine_similarity data
    (bookId : option label) (k : nat) :
  (∀ l, bookId = Some l → l ∉ index <$> data) →
  similar_summary cosine_similarity data bookId k = Raise KeyError ∧
  similar_genre cosine_similarity data bookId k = Raise KeyError.
Proof.
  intros Habsent. unfold similar_summary, similar_genre.
  by rewrite get_loc_absent.
Qed.

Lemma unknown_bookId_is_KeyError_witness :
  similar_summary (Fixtures.table_cosine Fixtures.shelf_scores) Fixtures.shelf
                  (Some (Id "b9")) 0 = Raise KeyError ∧
  similar_genre (Fixtures.table_cosine Fixtures.shelf_scores) Fixtures.shelf
                (Some (Id "b9")) 0 = Raise KeyError.
Proof.
  apply (unknown_bookId_is_KeyError (Fixtures.table_cosine Fixtures.shelf_scores)
           Fixtures.shelf (Some (Id "b9")) 0).
  intros l [= <-]. apply (bool_decide_unpack _). vm_compute. reflexivity.
Defined.

(** X12: in a catalog with unique labels and at least 2k+1 rows, the k labels
    of [similar_summary] and the k labels of [similar_genre] for a bookId of
    the catalog are 2k different labels of the catalog. *)
Theorem recommendations_are_distinct cosine_similarity data (bookId : label) (k : nat) :
  NoDup (index <$> data) →
  bookId ∈ index <$> data → 2 * k + 1 ≤ length data →
  ∃ s g,
    similar_summary cosine_similarity data (Some bookId) k = Return s ∧
    similar_genre cosine_similarity data (Some bookId) k = Return g ∧
    length (s ++ g) = 2 * k ∧
    NoDup (s ++ g) ∧ ∀ id, id ∈ s ++ g → id ∈ index <$> data.
Proof.
  intros Huniq Hin Hlen.
  destruct (summary_then_genre_NoDup cosine_similarity data bookId k Huniq Hin Hlen)
    as (s & g & Hs & Hg & Hks & Hkg & Hnd & Hsub).
  exists s, g. do 2 (split; [done|]). split; [rewrite length_app; lia|done].
Qed.

Lemma recommendations_are_distinct_witness :
  ∃ s g,
    similar_summary (Fixtures.table_cosine Fixtures.shelf_scores) Fixtures.shelf
                    (Some (Id "b1")) 2 = Return s ∧
    similar_genre (Fixtures.table_cosine Fixtures.shelf_scores) Fixtures.shelf
                  (Some (Id "b1")) 2 = Return g ∧
    length (s ++ g) = 4 ∧ NoDup (s ++ g).
Proof.
  destruct (recommendations_are_distinct (Fixtures.table_cosine Fixtures.shelf_scores)
              Fixtures.shelf (Id "b1") 2) as (s & g & Hs & Hg & Hlen & Hnd & _).
  - apply (bool_decide_unpack _). vm_compute. reflexivity.
  - apply (bool_decide_unpack _). vm_compute. reflexivity.
  - simpl. lia.
  - by exists s, g.
Defined.

(** X13: asking [similar_summary] for fewer books gives the beginning of what
    it gives for more: for k ≤ k' and a catalog of at least k'+1 rows, the
    result for k is the first k labels of the result for k'. *)
Theorem similar_summary_prefix cosine_similarity data (bookId : label) (k k' : nat) :
  bookId ∈ index <$> data → k ≤ k' → k' + 1 ≤ length data →
  ∃ ids,
    similar_summary cosine_similarity data (Some bookId) k' = Return ids ∧
    similar_summary cosine_similarity data (Some bookId) k = Return (take k ids).
Proof.
  intros Hin Hk Hlen.
  destruct (get_loc_elem_of data bookId Hin) as (loc & Hloc & _).
  destruct (ranks_in_range data (sorted_similar_books cosine_similarity data loc) k 1)
    as (x & Hx & Hkx & _); [apply sorted_rows|rewrite sorted_length; lia|].
  destruct (ranks_in_range data (sorted_similar_books cosine_similarity data loc)
              (k' - k) (1 + k)) as (y & Hy & _ & _);
    [apply sorted_rows|rewrite sorted_length; lia|].
  exists (x ++ y). unfold similar_summary. rewrite Hloc. simpl. split.
  - replace k' with (k + (k' - k)) by lia.
    by rewrite seq_app, mapM_result_app, Hx, Hy.
  - by rewrite take_app_length'.
Qed.

Lemma similar_summary_prefix_witness :
  ∃ ids,
    similar_summary (Fixtures.table_cosine Fixtures.shelf_scores) Fixtures.shelf
                    (Some (Id "b0")) 4 = Return ids ∧
    similar_summary (Fixtures.table_cosine Fixtures.shelf_scores) Fixtures.shelf
                    (Some (Id "b0")) 1 = Return (take 1 ids).
Proof.
  apply (similar_summary_prefix (Fixtures.table_cosine Fixtures.shelf_scores)
           Fixtures.shelf (Id "b0") 1 4); [apply list_elem_of_here|lia|simpl; lia].
Defined.

(** ** More on [recommend_books] *)

Section CallFacts.

Variable cosine_similarity : list string → nat → nat → Q.
Variable fetch : string → bool.
Variable re_search : string → string → option bool.
Variable data : list Book.

Local Abbreviation summary := (similar_summary cosine_similarity data).
Local Abbreviation genre := (similar_genre cosine_similarity data).

Lemma summary_out_of_range (bookId : label) k :
  bookId ∈ index <$> data → length data < k + 1 →
  summary (Some bookId) k = Raise IndexError.
Proof.
  intros Hin Hlen. destruct (get_loc_elem_of data bookId Hin) as (loc & Hloc & Hat).
  apply lookup_lt_Some in Hat. rewrite length_fmap in Hat.
  unfold similar_summary. rewrite Hloc. simpl.
  apply ranks_out_of_range; [apply sorted_rows|lia|rewrite sorted_length; lia].
Qed.

Lemma genre_out_of_range (bookId : label) k :
  bookId ∈ index <$> data → length data < 2 * k + 1 →
  genre (Some bookId) k = Raise IndexError.
Proof.
  intros Hin Hlen. destruct (get_loc_elem_of data bookId Hin) as (loc & Hloc & Hat).
  apply lookup_lt_Some in Hat. rewrite length_fmap in Hat.
  unfold similar_genre. rewrite Hloc. simpl.
  apply ranks_out_of_range; [apply sorted_rows|lia|rewrite sorted_length; lia].
Qed.

Lemma summary_returns_or_IndexError (bookId : label) k :
  bookId ∈ index <$> data →
  (∃ ids, summary (Some bookId) k = Return ids) ∨
  summary (Some bookId) k = Raise IndexError.
Proof.
  intros Hin. destruct (decide (k + 1 ≤ length data)) as [Hle|Hgt].
  - destruct (summary_of_known_book cosine_similarity data bookId k Hin Hle)
      as (_ & ids & _ & _ & Hids & _). left. by exists ids.
  - right. apply summary_out_of_range; [done|lia].
Qed.

(** The labels at some ranks are the labels of the rows at those ranks. *)
Lemma rank_labels_rows (ps : list (nat * Q)) (ids : list label) :
  Forall2 (λ p id, (index <$> data) !! p.1 = Some id) ps ids →
  ∃ bs, ids = index <$> bs ∧ Forall2 (λ p b, data !! p.1 = Some b) ps bs.
Proof.
  induction 1 as [|p id ps ids Hp _ (bs & -> & Hbs)]; [by exists []|].
  rewrite list_lookup_fmap in Hp.
  destruct (data !! p.1) as [b|] eqn:Hb; simplify_eq/=.
  exists (b :: bs). split; [done|]. by constructor.
Qed.

End CallFacts.

(** X14: with the mode unset, a catalog with unique labels and at least 2k+1
    rows, and a bookId of the catalog, [books] is a set of exactly 2k labels:
    the two result lists share no label. *)
Theorem combined_mode_has_2k_books cosine_similarity data (bookId : label)
    (type : value) (k : nat) :
  truthy type = false →
  NoDup (index <$> data) →
  bookId ∈ index <$> data → 2 * k + 1 ≤ length data →
  ∃ both : gset label,
    select_books cosine_similarity data (Some bookId) type k
      = Return (Some (BookSet both)) ∧
    size both = 2 * k ∧ length (iterate (BookSet both)) = 2 * k.
Proof.
  intros Hfalsy Huniq Hin Hlen.
  destruct (summary_then_genre_NoDup cosine_similarity data bookId k Huniq Hin Hlen)
    as (s & g & Hs & Hg & Hks & Hkg & Hnd & _).
  exists (list_to_set (s ++ g)). split.
  { unfold select_books. rewrite !falsy_is_no_mode_name by done.
    by rewrite Hfalsy, Hs, Hg. }
  assert (size (list_to_set (C:=gset label) (s ++ g)) = 2 * k) as Hsize.
  { rewrite size_list_to_set by done. rewrite length_app. lia. }
  split; [done|]. exact Hsize.
Qed.

Lemma combined_mode_has_2k_books_witness :
  ∃ both : gset label,
    select_books (Fixtures.table_cosine Fixtures.shelf_scores) Fixtures.shelf
                 (Some (Id "b2")) (PyStr "") 2 = Return (Some (BookSet both)) ∧
    size both = 4 ∧ length (iterate (BookSet both)) = 4.
Proof.
  apply (combined_mode_has_2k_books (Fixtures.table_cosine Fixtures.shelf_scores)
           Fixtures.shelf (Id "b2") (PyStr "") 2).
  - reflexivity.
  - apply (bool_decide_unpack _). vm_compute. reflexivity.
  - apply (bool_decide_unpack _). vm_compute. reflexivity.
  - simpl. lia.
Defined.

(** X15: with k = 0, an accepted mode and a name resolved to a label of the
    catalog, [recommend_books] returns having displayed nothing: the console
    is as the resolver left it. *)
Theorem zero_books_display_nothing cosine_similarity fetch re_search data
    (book_name : option string) (type : value) (bookId : label) (w w1 : world) :
  accepted type = true →
  name_to_bookId re_search data book_name w = (Some bookId, w1) →
  bookId ∈ index <$> data →
  recommend_books cosine_similarity fetch re_search data book_name type 0 w
    = (Return (), w1).
Proof.
  intros Hacc Hres Hin. unfold recommend_books. rewrite Hres.
  destruct (get_loc_elem_of data bookId Hin) as (loc & Hloc & _).
  assert (similar_summary cosine_similarity data (Some bookId) 0 = Return []) as Hs.
  { unfold similar_summary. by rewrite Hloc. }
  assert (similar_genre cosine_similarity data (Some bookId) 0 = Return []) as Hg.
  { unfold similar_genre. by rewrite Hloc. }
  unfold select_books, accepted in *. rewrite Hs, Hg.
  destruct (eq_str type "summary"); [done|].
  destruct (eq_str type "genres"); [done|].
  destruct (truthy type); [done|]. simpl.
  by rewrite elements_empty.
Qed.

Lemma zero_books_display_nothing_witness :
  recommend_books (Fixtures.table_cosine Fixtures.shelf_scores) Fixtures.online
                  Fixtures.no_regex Fixtures.shelf (Some "Walden") PyNone 0 (mkWorld [] [])
    = (Return (), mkWorld [] [Print "walden"]).
Proof.
  apply (zero_books_display_nothing (Fixtures.table_cosine Fixtures.shelf_scores)
           Fixtures.online Fixtures.no_regex Fixtures.shelf (Some "Walden") PyNone
           (Id "b4") (mkWorld [] []) (mkWorld [] [Print "walden"]));
    [reflexivity|reflexivity|].
  apply (bool_decide_unpack _). vm_compute. reflexivity.
Defined.

(** X16: the IndexError of a catalog that is too small leaves
    [recommend_books] unhandled and nothing is displayed: in mode 'summary'
    when the catalog has fewer than k+1 rows, in mode 'genres' and with the
    mode unset when it has fewer than 2k+1 rows (with the mode unset also when
    [similar_summary] itself succeeds). *)
Theorem small_catalog_raises_IndexError cosine_similarity fetch re_search data
    (book_name : option string) (type : value) (k : nat) (bookId : label)
    (w w1 : world) :
  name_to_bookId re_search data book_name w = (Some bookId, w1) →
  bookId ∈ index <$> data →
  (eq_str type "summary" = true ∧ length data < k + 1) ∨
  (eq_str type "summary" = false ∧ accepted type = true ∧ length data < 2 * k + 1) →
  recommend_books cosine_similarity fetch re_search data book_name type k w
    = (Raise IndexError, w1).
Proof.
  intros Hres Hin Hsmall. unfold recommend_books. rewrite Hres.
  assert (select_books cosine_similarity data (Some bookId) type k = Raise IndexError)
    as ->; [|done].
  unfold select_books, accepted in *.
  destruct Hsmall as [[-> Hlen]|(-> & Hacc & Hlen)].
  - by rewrite summary_out_of_range.
  - rewrite genre_out_of_range by done.
    destruct (eq_str type "genres"); [done|].
    destruct (truthy type); [done|]. simpl.
    by destruct (summary_returns_or_IndexError cosine_similarity data bookId k Hin)
      as [[ids ->]| ->].
Qed.

Lemma small_catalog_raises_IndexError_witness :
  similar_summary (Fixtures.table_cosine Fixtures.shelf_scores) Fixtures.shelf
                  (Some (Id "b0")) 3 = Return [Id "b3"; Id "b1"; Id "b2"] ∧
  recommend_books (Fixtures.table_cosine Fixtures.shelf_scores) Fixtures.online
                  Fixtures.no_regex Fixtures.shelf (Some "emma") PyNone 3 (mkWorld [] [])
    = (Raise IndexError, mkWorld [] [Print "emma"]).
Proof.
  split; [reflexivity|].
  apply (small_catalog_raises_IndexError (Fixtures.table_cosine Fixtures.shelf_scores)
           Fixtures.online Fixtures.no_regex Fixtures.shelf (Some "emma") PyNone 3
           (Id "b0") (mkWorld [] []) (mkWorld [] [Print "emma"])).
  - reflexivity.
  - apply list_elem_of_here.
  - right. split; [reflexivity|]. split; [reflexivity|]. simpl. lia.
Defined.

(** X17: in the modes 'summary' and 'genres', with a name resolved to a label
    of a catalog that has unique labels, enough rows and covers that can all
    be fetched, [recommend_books] returns after displaying exactly k rows, in
    rank order: the rows at ranks 1 to k for 'summary', at ranks k+1 to 2k for
    'genres'. *)
Theorem list_modes_display_ranks cosine_similarity fetch re_search data
    (book_name : option string) (type : value) (k a : nat) (bookId : label)
    (w w1 : world) :
  NoDup (index <$> data) →
  (∀ b, b ∈ data → fetch (coverImg b) = true) →
  name_to_bookId re_search data book_name w = (Some bookId, w1) →
  bookId ∈ index <$> data →
  (type = PyStr "summary" ∧ a = 1) ∨ (type = PyStr "genres" ∧ a = k + 1) →
  a + k ≤ length data →
  ∃ loc bs,
    get_loc data (Some bookId) = Return loc ∧
    length bs = k ∧
    Forall2 (λ p b, data !! p.1 = Some b)
            (take k (drop a (sorted_similar_books cosine_similarity data loc))) bs ∧
    recommend_books cosine_similarity fetch re_search data book_name type k w
      = (Return (), wrote (concat (card <$> bs)) w1).
Proof.
  intros Huniq Hfetch Hres Hin Hmode Hlen.
  destruct (ranks_of_known_book cosine_similarity data bookId a k Hin Hlen)
    as (loc & ids & Hloc & _ & Hids & Hk & Hall).
  destruct (rank_labels_rows data _ _ Hall) as (bs & -> & Hbs).
  exists loc, bs. split; [done|]. split; [by rewrite length_fmap in Hk|].
  split; [done|].
  assert (select_books cosine_similarity data (Some bookId) type k
          = Return (Some (BookList (index <$> bs)))) as Hsel.
  { unfold select_books, similar_summary, similar_genre. rewrite Hloc.
    destruct Hmode as [[-> ->]|[-> ->]]; simpl; by rewrite Hids. }
  unfold recommend_books. rewrite Hres, Hsel. simpl.
  apply print_book_details_all; [done|].
  apply Forall_forall. intros b Hb.
  assert (b ∈ data) as Hdata.
  { apply list_elem_of_lookup in Hb as [i Hi].
    destruct (Forall2_lookup_r _ _ _ _ _ Hbs Hi) as (p & _ & Hp).
    by eapply list_elem_of_lookup_2. }
  split; [done|by apply Hfetch].
Qed.

Lemma list_modes_display_ranks_witness :
  recommend_books (Fixtures.table_cosine Fixtures.shelf_scores) Fixtures.online
                  Fixtures.no_regex Fixtures.shelf (Some "emma") (PyStr "genres") 2
                  (mkWorld [] [])
    = (Return (),
       mkWorld [] (Print "emma"
                   :: card (Fixtures.book "b2" "Dracula" "d2")
                   ++ card (Fixtures.book "b4" "Walden" "d4"))).
Proof.
  destruct (list_modes_display_ranks (Fixtures.table_cosine Fixtures.shelf_scores)
              Fixtures.online Fixtures.no_regex Fixtures.shelf (Some "emma")
              (PyStr "genres") 2 3 (Id "b0") (mkWorld [] []) (mkWorld [] [Print "emma"]))
    as (loc & bs & Hloc & _ & Hbs & Hcall).
  - apply (bool_decide_unpack _). vm_compute. reflexivity.
  - reflexivity.
  - reflexivity.
  - apply list_elem_of_here.
  - right. by split.
  - simpl. lia.
  - injection Hloc as <-. vm_compute in Hbs.
    apply Forall2_cons_inv_l in Hbs as (b1 & bs1 & Hb1 & Hbs & ->).
    apply Forall2_cons_inv_l in Hbs as (b2 & bs2 & Hb2 & Hbs & ->).
    apply Forall2_nil_inv_l in Hbs as ->.
    injection Hb1 as <-. injection Hb2 as <-. exact Hcall.
Defined.

(** ** Resolved labels *)

Section ResolvedFacts.

Variable re_search : string → string → option bool.
Variable data : list Book.

Lemma boolean_index_elem_of (rows : list Book) (mask : list bool) b :
  b ∈ boolean_index rows mask → b ∈ rows.
Proof.
  revert mask. induction rows as [|x rows IH]; intros [|m mask] Hb;
    try by apply elem_of_nil in Hb.
  cbn [boolean_index] in Hb. destruct m.
  - apply elem_of_cons in Hb as [->|Hb]; [by left|]. right. by eapply IH.
  - right. by eapply IH.
Qed.

Lemma first_containing_in_catalog pat l :
  first_containing re_search data pat = Some l → l ∈ index <$> data.
Proof.
  unfold first_containing.
  destruct (mapM _ data) as [mask|]; [|done]. cbn [mbind option_bind].
  destruct (boolean_index data mask) as [|b rows] eqn:Hrows; [done|].
  intros [= <-]. apply list_elem_of_fmap_2. eapply boolean_index_elem_of.
  rewrite Hrows. by left.
Qed.

Lemma resolve_in_catalog again q w l :
  (resolve re_search data again q w).1 = Some l → l ∈ index <$> data.
Proof.
  unfold resolve. cbv zeta.
  destruct (correct_name data (lower q) (print (lower q) w)) as [r w1].
  destruct (cn_eq_int r 0); [done|].
  destruct (correct_name data (lower q) w1) as [r' w2].
  destruct (first_containing re_search data (lower q)) as [l'|] eqn:Hfirst; [|done].
  intros [= <-]. by eapply first_containing_in_catalog.
Qed.

Lemma prompted_in_catalog lines out l :
  (name_to_bookId_prompted re_search data lines out).1 = Some l → l ∈ index <$> data.
Proof.
  revert out. induction lines as [|line rest IH]; intros out; [done|].
  cbn [name_to_bookId_prompted]. destruct (String.eqb line ""); [apply IH|].
  apply resolve_in_catalog.
Qed.

End ResolvedFacts.

(** X19: a label that [name_to_bookId] returns is a label of the catalog,
    whatever the name and whatever is typed, so the position lookup of
    [similar_summary] and [similar_genre] finds it: after a resolution that
    returned a label they do not raise KeyError. *)
Theorem resolved_label_is_in_catalog cosine_similarity re_search data
    (book_name : option string) (w : world) (l : label) (k : nat) :
  (name_to_bookId re_search data book_name w).1 = Some l →
  l ∈ index <$> data ∧
  similar_summary cosine_similarity data (Some l) k ≠ Raise KeyError ∧
  similar_genre cosine_similarity data (Some l) k ≠ Raise KeyError.
Proof.
  intros Hres.
  assert (l ∈ index <$> data) as Hin.
  { destruct book_name as [[|c s]|]; unfold name_to_bookId in Hres;
      [by eapply prompted_in_catalog|by eapply resolve_in_catalog
      |by eapply prompted_in_catalog]. }
  split; [done|].
  destruct (get_loc_elem_of data l Hin) as (loc & Hloc & _).
  assert (∀ ranks ids, mapM (book_at_rank data ranks) ids ≠ Raise KeyError) as Hloop.
  { intros ranks ids. induction ids as [|a ids IH]; [done|]. simpl.
    destruct (book_at_rank data ranks a) as [id|e] eqn:Hrank; simpl.
    - destruct (mapM _ ids) as [ids'|e']; simpl; [done|]. by intros [= ->].
    - intros [= ->]. unfold book_at_rank in Hrank.
      destruct (ranks !! a) as [p|]; [|done]. by destruct (data !! p.1). }
  unfold similar_summary, similar_genre. rewrite Hloc. simpl. split; apply Hloop.
Qed.

Lemma resolved_label_is_in_catalog_witness :
  Id "b0" ∈ index <$> Fixtures.series ∧
  similar_summary Fixtures.same_text_cosine Fixtures.series (Some (Id "b0")) 7
    ≠ Raise KeyError.
Proof.
  destruct (resolved_label_is_in_catalog Fixtures.same_text_cosine Fixtures.no_regex
              Fixtures.series (Some "harry") (mkWorld [] []) (Id "b0") 7 eq_refl)
    as (Hin & Hs & _).
  by split.
Defined.

(** X20: for an ASCII name without metacharacters and a catalog whose titles
    are ASCII: a name that equals a title up to case, when no earlier row has
    a title that contains it, resolves to the label of the row with that
    title; the lower-cased name is all that is printed and no input is
    read. *)
Theorem exact_title_resolves_when_first re_search (pre : list Book) (b : Book)
    (post : list Book) (q : string) (w : world) :
  q ≠ "" → plain q = true → ascii_only q = true →
  ascii_titles (pre ++ b :: post) →
  lower (title b) = lower q →
  Forall (λ b', str_in (lower q) (lower (title b')) = false) pre →
  name_to_bookId re_search (pre ++ b :: post) (Some q) w
    = (Some (index b), print (lower q) w).
Proof.
  intros Hq Hplain Hascii Htitles Heq Hpre. set (data := pre ++ b :: post).
  pose proof (first_containing_ascii re_search data q Hplain Hascii Htitles) as Hfirst.
  assert (head (index <$> containing data q) = Some (index b)) as Hhead.
  { unfold containing, data. rewrite filter_app, filter_cons_True.
    2: { rewrite Heq. by rewrite str_in_refl. }
    replace (filter _ pre) with (@nil Book); [done|].
    symmetry. clear -Hpre. induction Hpre as [|x pre Hx _ IH]; [done|].
    rewrite filter_cons_False; [done|]. rewrite Hx. by intros []. }
  assert (∀ w', correct_name data (lower q) w' = (CnNone, w')) as Hexact.
  { intros w'. unfold correct_name. rewrite bool_decide_eq_false_2; [done|].
    intros Hnot. apply Hnot. rewrite <- Heq.
    apply list_elem_of_fmap_2, list_elem_of_fmap_2. unfold data.
    apply elem_of_app. right. by left. }
  destruct q as [|c s]; [done|]. unfold name_to_bookId, resolve. cbv zeta.
  rewrite !Hexact. cbn [cn_eq_int].
  by rewrite Hfirst, Hhead.
Qed.

Lemma exact_title_resolves_when_first_witness :
  name_to_bookId Fixtures.no_regex Fixtures.series (Some "EMMA") (mkWorld ["x"] [])
    = (Some (Id "b2"), mkWorld ["x"] [Print "emma"]).
Proof.
  apply (exact_title_resolves_when_first Fixtures.no_regex
           [Fixtures.book "b0" "Harry Potter 1" "a boy wizard";
            Fixtures.book "b1" "Harry Potter 2" "a secret chamber"]
           (Fixtures.book "b2" "Emma" "a matchmaker") [] "EMMA" (mkWorld ["x"] []));
    [discriminate|reflexivity|reflexivity|repeat constructor|reflexivity
    |by repeat constructor].
Defined.
